(** * drni.cpp: the simulation driver of the LACP / DRNI simulator

    A shallow embedding of the driver in [drni.cpp]: the list utility
    [compareLists], the per-tick loop shared by every scripted test, the
    Distributed Relay configuration done by [main], and the schedules of
    the scripted tests.  Unsigned shorts and the tick counter are [Z];
    [std::list<unsigned short>] is [list Z].

    The Devices, Macs, AggPorts, Aggregators and Distributed Relays that
    the driver calls are defined in other files of the simulator.  The
    driver is embedded over an interpretation of its calls; the module
    [Lacp] gives an interpretation of them by the Link Aggregation
    machines of the specification, each definition marked as modelled
    from it. *)

From Stdlib Require Import ZArith Lia.
From stdpp Require Import base decidable numbers list sorting strings gmap.

Local Open Scope Z_scope.

(** ** compareLists *)

Module CompareLists.

(** [std::list::sort] on unsigned shorts: a stable merge sort under [<=]. *)
Definition sort (l : list Z) : list Z := merge_sort Z.le l.

(** [a.merge(b)]: merge of two sorted lists; of two equivalent elements
    the one of [a] comes first. *)
Definition merge (a b : list Z) : list Z := list_merge Z.le a b.

(** The [while (!listA.empty() && !listB.empty())] loop.  The state is the
    triple (difference, listA, listB); every iteration pops the front of
    at least one list. *)
Fixpoint compare_loop (listA : list Z) : list Z → list Z → list Z * list Z * list Z :=
  fix loopB (listB difference : list Z) {struct listB} :=
    match listA, listB with
    | a :: listA', b :: listB' =>
        if decide (a = b) then compare_loop listA' listB' difference
        else if decide (a < b) then compare_loop listA' listB (difference ++ [a])
        else loopB listB' (difference ++ [b])
    | _, _ => (difference, listA, listB)
    end.

Definition compareLists (listA listB : list Z) : list Z :=
  let listA := sort listA in
  let listB := sort listB in
  let '(difference, listA, listB) := compare_loop listA listB [] in
  let difference := merge difference listA in
  let difference := merge difference listB in
  difference.

(** The variables of [CompareListsTest]; [compareLists] receives copies of
    [listA] and [listB] and its result is assigned to [difference]. *)
Record frame := Frame { listA : list Z; listB : list Z; difference : list Z }.

Definition call_compareLists (f : frame) : frame :=
  {| listA := listA f; listB := listB f;
     difference := compareLists (listA f) (listB f) |}.

Definition push_back (x : Z) (l : list Z) : list Z := l ++ [x].
Definition push_front (x : Z) (l : list Z) : list Z := x :: l.

(** The five calls of [CompareListsTest], in order, with the lists the
    test has built at each call. *)
Definition CompareListsTest : list frame :=
  let f0 := call_compareLists (Frame [] [] []) in
  let f1 := call_compareLists
    (Frame (push_back 10 (push_back 3 (push_back 2 (push_back 1 (listA f0)))))
           (listB f0) (difference f0)) in
  let f2 := call_compareLists
    (Frame (listA f1) (push_back 11 (push_back 10 (listB f1))) (difference f1)) in
  let f3 := call_compareLists
    (Frame (listA f2) (push_front 2 (push_front 5 (listB f2))) (difference f2)) in
  let f4 := call_compareLists
    (Frame (listA f3) (push_front 1 (push_front 2 (listB f3))) (difference f3)) in
  [f0; f1; f2; f3; f4].

(** Number of occurrences of [v] in [l]. *)
Definition count (l : list Z) (v : Z) : nat := count_occ Z.eq_dec l v.

End CompareLists.

(** ** The objects the driver acts on *)

(** [Devices[dev]->pMacs[idx]] is the pair [(dev, idx)]. *)
Definition mac : Type := nat * nat.
Definition pMacs (dev idx : nat) : mac := (dev, idx).

Inductive LagAlgorithms := UNSPECIFIED | C_VID | S_VID | I_SID.

Inductive convLinkMaps :=
  DEFAULT | EVEN_ODD | EIGHT_LINK_SPREAD | ACTIVE_STANDBY | ADMIN_TABLE.

Record VlanTag := { tagType : Z; vid : Z }.

(** The calls the driver makes on Devices, Macs, Aggregators, AggPorts
    and End Stations.  Their bodies are in other files of the simulator;
    the driver is embedded over an interpretation [exec] of them. *)
Inductive call :=
  | reset (dev : nat)
  | timerTick (dev : nat)
  | run (dev : nat) (singleStep : bool)
  | transmit (dev : nat)
  | disconnect (dev : nat)
  | Connect (a b : mac) (delay : Z)
  | Disconnect (a : mac)
  | set_aAggPortWTRTime (dev port : nat) (wtr : Z)
  | and_aAggPortActorAdminState (dev port : nat) (mask : Z)
  | or_aAggPortActorAdminState (dev port : nat) (bits : Z)
  | set_aAggPortActorAdminKey (dev port : nat) (key : Z)
  | set_aAggPortLinkNumberID (dev port : nat) (link : Z)
  | set_aAggActorAdminKey (dev agg : nat) (key : Z)
  | setEnabled (dev agg : nat) (enable : bool)
  | set_aAggPortAlgorithm (dev agg : nat) (alg : LagAlgorithms)
  | set_aAggConversationAdminLink (dev agg : nat) (convId : Z) (links : list Z)
  | set_aAggConversationListDigest (dev agg : nat) (digest : string)
  | set_convLinkMap (dev agg : nat) (map : convLinkMaps)
  | generateTestFrame (dev : nat) (tag : option VlanTag)
  | printLinkMap.

(** ** The driver *)

Module Driver.

(** Device counts fixed by [main]. *)
Definition brgCnt : nat := 3.
Definition brgMacCnt : nat := 8.
Definition endStnCnt : nat := 3.
Definition endStnMacCnt : nat := 4.

(** [Devices]: bridges first, then end stations. *)
Definition Devices : list nat := seq 0 (brgCnt + endStnCnt).

(** [send9Frames(source)]: one untagged test frame, then one C-VLAN
    tagged frame for each vid 0..7. *)
Definition send9Frames (CVlanEthertype : Z) (source : nat) : list call :=
  generateTestFrame source None ::
  ((λ vid, generateTestFrame source
             (Some {| tagType := CVlanEthertype; vid := Z.of_nat vid |}))
     <$> seq 0 8).

(** [if (SimLog::Time == start + offset) { body }] *)
Definition at_time (Time start offset : Z) (body : list call) : list call :=
  if decide (Time = start + offset) then body else [].

(** A schedule written with [at_time] only looks at [Time - start]. *)
Definition relative (events : Z → Z → list call) : Prop :=
  ∀ start Time, events start Time = events 0 (Time - start).

Section Loop.
Context {W : Type} (exec : call → W → W).

(** [SimLog::Time] together with the state of everything the calls act
    on. *)
Record sim := Sim { Time : Z; world : W }.

Definition calls (cs : list call) (w : W) : W :=
  foldl (λ w c, exec c w) w cs.

(** [for (auto& pDev : Devices) { pDev->timerTick(); pDev->run(true); }] *)
Definition run_all (w : W) : W :=
  foldl (λ w dev, exec (run dev true) (exec (timerTick dev) w)) w Devices.

(** [for (auto& pDev : Devices) { pDev->transmit(); }] *)
Definition transmit_all (w : W) : W :=
  foldl (λ w dev, exec (transmit dev) w) w Devices.

(** One iteration of the [for (int i = 0; i < 1000; i++)] loop of a
    test: the events scheduled for this tick, then every device's
    timers and state machines, then every device's transmissions, then
    [SimLog::Time++]. *)
Definition iteration (events : Z → Z → list call) (start : Z) (s : sim) : sim :=
  let w := calls (events start (Time s)) (world s) in
  let w := run_all w in
  let w := transmit_all w in
  {| Time := Time s + 1; world := w |}.

Definition loop (n : nat) (events : Z → Z → list call) (start : Z) (s : sim) : sim :=
  Nat.iter n (iteration events start) s.

(** The states of the world at the end of each of the first [n]
    iterations. *)
Fixpoint trajectory (n : nat) (events : Z → Z → list call) (start : Z) (s : sim)
    : list W :=
  match n with
  | O => []
  | S n' =>
      let s' := iteration events start s in
      world s' :: trajectory n' events start s'
  end.

(** The head of a scripted test: reset of all devices and the test's own
    preparation. *)
Definition start_test (setup : list call) (s : sim) : sim :=
  let w := foldl (λ w dev, exec (reset dev) w) (world s) Devices in
  {| Time := Time s; world := calls setup w |}.

(** A scripted test: [start = SimLog::Time], the head, and 1000
    iterations. *)
Definition test (setup : list call) (events : Z → Z → list call) (s : sim) : sim :=
  let start := Time s in
  loop 1000 events start (start_test setup s).
End Loop.

Arguments Sim {W} _ _.
Arguments Time {W} _.
Arguments world {W} _.

Definition disconnect_all : list call := disconnect <$> Devices.

Section Tests.
(** Constants declared in headers that are not part of this file. *)
Context (defaultActorKey CVlanEthertype : Z).

Definition basicLagTest_setup : list call := [set_aAggPortWTRTime 0 0 30].

Definition basicLagTest_events (start Time : Z) : list call :=
  at_time Time start 10 [Connect (pMacs 0 0) (pMacs 1 0) 5] ++
  at_time Time start 100 [Connect (pMacs 0 1) (pMacs 1 1) 5] ++
  at_time Time start 200 [Connect (pMacs 0 2) (pMacs 1 2) 5] ++
  at_time Time start 300 [Disconnect (pMacs 0 0)] ++
  at_time Time start 400 [Connect (pMacs 0 0) (pMacs 1 0) 5] ++
  at_time Time start 500 [Disconnect (pMacs 0 1)] ++
  at_time Time start 600 [Connect (pMacs 0 1) (pMacs 1 3) 5] ++
  at_time Time start 700 [Connect (pMacs 0 4) (pMacs 2 0) 5] ++
  at_time Time start 800 [Connect (pMacs 0 5) (pMacs 2 2) 5] ++
  at_time Time start 990 (set_aAggPortWTRTime 0 0 0 :: disconnect_all).

Definition preferredAggregatorTest_events (start Time : Z) : list call :=
  at_time Time start 10 [Connect (pMacs 0 1) (pMacs 1 2) 5] ++
  at_time Time start 100 [Connect (pMacs 0 2) (pMacs 1 3) 5] ++
  at_time Time start 200 [Connect (pMacs 0 3) (pMacs 1 1) 5] ++
  at_time Time start 300 [Disconnect (pMacs 0 1)] ++
  at_time Time start 400 [Connect (pMacs 0 1) (pMacs 1 2) 5] ++
  at_time Time start 500 [Disconnect (pMacs 0 1)] ++
  at_time Time start 600 [Connect (pMacs 0 1) (pMacs 2 0) 5] ++
  at_time Time start 700 [Disconnect (pMacs 0 1)] ++
  at_time Time start 800 [Connect (pMacs 0 1) (pMacs 1 2) 5] ++
  at_time Time start 990 disconnect_all.

Definition nonAggregatablePortTest_events (start Time : Z) : list call :=
  at_time Time start 1
    [and_aAggPortActorAdminState 0 1 0xfb; and_aAggPortActorAdminState 1 1 0xfb;
     and_aAggPortActorAdminState 0 4 0xfb; and_aAggPortActorAdminState 1 4 0xfb] ++
  at_time Time start 100
    [Connect (pMacs 0 1) (pMacs 1 2) 5; Connect (pMacs 0 2) (pMacs 1 3) 5; Connect (pMacs 0 3) (pMacs 1 1) 5] ++
  at_time Time start 200 [Connect (pMacs 0 4) (pMacs 1 0) 5] ++
  at_time Time start 300 [Connect (pMacs 0 5) (pMacs 1 5) 5] ++
  at_time Time start 400 [Connect (pMacs 0 0) (pMacs 1 4) 5] ++
  at_time Time start 500 [or_aAggPortActorAdminState 0 1 0x04] ++
  at_time Time start 990
    ([or_aAggPortActorAdminState 0 4 0x04; or_aAggPortActorAdminState 1 1 0x04;
      or_aAggPortActorAdminState 1 4 0x04] ++ disconnect_all).

Definition distributionTest_events (start Time : Z) : list call :=
  at_time Time start 10
    [Connect (pMacs 0 0) (pMacs 1 0) 5; Connect (pMacs 0 1) (pMacs 1 1) 5; Connect (pMacs 0 2) (pMacs 1 2) 5;
     Connect (pMacs 0 3) (pMacs 2 3) 5; Connect (pMacs 0 4) (pMacs 2 4) 5; Connect (pMacs 0 5) (pMacs 2 5) 5] ++
  at_time Time start 100
    [Connect (pMacs 0 6) (pMacs 3 0) 5; Connect (pMacs 0 7) (pMacs 3 1) 5;
     Connect (pMacs 1 4) (pMacs 4 2) 5; Connect (pMacs 1 5) (pMacs 4 3) 5;
     Connect (pMacs 2 0) (pMacs 5 0) 5; Connect (pMacs 2 1) (pMacs 5 1) 5] ++
  at_time Time start 200 (printLinkMap :: send9Frames CVlanEthertype 3) ++
  at_time Time start 300 [Connect (pMacs 0 3) (pMacs 1 3) 5; Disconnect (pMacs 3 0)] ++
  at_time Time start 400 (printLinkMap :: send9Frames CVlanEthertype 3) ++
  at_time Time start 500
    ([set_aAggPortLinkNumberID 0 0 17; set_aAggPortLinkNumberID 0 1 25] ++
     ((λ agg, set_aAggPortAlgorithm 0 agg C_VID) <$> seq 0 brgMacCnt) ++
     ((λ agg, set_aAggPortAlgorithm 2 agg C_VID) <$> seq 0 brgMacCnt)) ++
  at_time Time start 600 (printLinkMap :: send9Frames CVlanEthertype 3) ++
  at_time Time start 700
    [set_aAggConversationAdminLink 2 0 0 [3; 2; 1];
     set_aAggConversationAdminLink 2 0 1 [2; 1; 0];
     set_aAggConversationAdminLink 2 0 2 [2; 0];
     set_aAggConversationAdminLink 2 0 3 [2];
     set_aAggConversationAdminLink 2 0 4 [0];
     set_aAggConversationAdminLink 2 0 5 [1];
     set_aAggConversationAdminLink 2 0 6 [1; 0];
     set_aAggConversationAdminLink 2 0 7 [3; 1; 2];
     set_aAggConversationListDigest 2 0 "ADMIN_TABLE    ";
     set_convLinkMap 2 0 ADMIN_TABLE] ++
  at_time Time start 800 (printLinkMap :: send9Frames CVlanEthertype 3) ++
  at_time Time start 990 disconnect_all.

Definition waitToRestoreTest_events (start Time : Z) : list call :=
  at_time Time start 1
    (((λ port, set_aAggPortWTRTime 0 port 30) <$> seq 0 brgMacCnt) ++
     [set_aAggActorAdminKey 0 6 (defaultActorKey + 0x100);
      set_aAggPortActorAdminKey 0 6 (defaultActorKey + 0x100);
      set_aAggPortActorAdminKey 0 7 (defaultActorKey + 0x100);
      setEnabled 0 7 false]) ++
  at_time Time start 10
    [Connect (pMacs 0 0) (pMacs 3 0) 5; Connect (pMacs 0 1) (pMacs 3 1) 5; Connect (pMacs 0 2) (pMacs 3 2) 5] ++
  at_time Time start 10 [Connect (pMacs 0 6) (pMacs 1 6) 5; Connect (pMacs 0 7) (pMacs 2 7) 5] ++
  at_time Time start 100 [Disconnect (pMacs 0 1); Disconnect (pMacs 0 2)] ++
  at_time Time start 115 [Connect (pMacs 0 1) (pMacs 3 1) 5; Connect (pMacs 0 2) (pMacs 3 2) 5] ++
  at_time Time start 120 [Disconnect (pMacs 0 2)] ++
  at_time Time start 125 [Connect (pMacs 0 2) (pMacs 3 2) 5] ++
  at_time Time start 200 [Disconnect (pMacs 0 1); Disconnect (pMacs 0 2)] ++
  at_time Time start 215 [Connect (pMacs 0 1) (pMacs 3 1) 5; Connect (pMacs 0 2) (pMacs 3 2) 5] ++
  at_time Time start 230 [Disconnect (pMacs 0 0)] ++
  at_time Time start 250 [Connect (pMacs 0 0) (pMacs 3 0) 5] ++
  at_time Time start 300 [Disconnect (pMacs 0 6)] ++
  at_time Time start 350 [Connect (pMacs 0 6) (pMacs 1 6) 5] ++
  at_time Time start 400 [Disconnect (pMacs 0 7)] ++
  at_time Time start 450 [Connect (pMacs 0 7) (pMacs 2 7) 5] ++
  at_time Time start 500
    (((λ port, set_aAggPortWTRTime 0 port (Z.lor 30 0x8000)) <$> seq 0 brgMacCnt) ++
     [Disconnect (pMacs 0 1); Disconnect (pMacs 0 2)]) ++
  at_time Time start 515 [Connect (pMacs 0 1) (pMacs 3 1) 5; Connect (pMacs 0 2) (pMacs 3 2) 5] ++
  at_time Time start 520 [Disconnect (pMacs 0 2)] ++
  at_time Time start 525 [Connect (pMacs 0 2) (pMacs 3 2) 5] ++
  at_time Time start 600 [Disconnect (pMacs 0 1); Disconnect (pMacs 0 2)] ++
  at_time Time start 615 [Connect (pMacs 0 1) (pMacs 3 1) 5; Connect (pMacs 0 2) (pMacs 3 2) 5] ++
  at_time Time start 630 [Disconnect (pMacs 0 0)] ++
  at_time Time start 650 [Connect (pMacs 0 0) (pMacs 3 0) 5] ++
  at_time Time start 700 [Disconnect (pMacs 0 6)] ++
  at_time Time start 750 [Connect (pMacs 0 6) (pMacs 1 6) 5] ++
  at_time Time start 800 [Disconnect (pMacs 0 7)] ++
  at_time Time start 850 [Connect (pMacs 0 7) (pMacs 2 7) 5] ++
  at_time Time start 990
    (flat_map (λ agg, [set_aAggActorAdminKey 0 agg defaultActorKey; setEnabled 0 agg true])
              (seq 0 brgMacCnt) ++
     ((λ port, set_aAggPortWTRTime 0 port 0) <$> seq 0 brgMacCnt) ++
     disconnect_all).
End Tests.

(** The interpretation that records the calls in the order they are
    made. *)
Definition record_call (c : call) (trace : list call) : list call := trace ++ [c].

End Driver.

(** ** The Distributed Relays configured by main *)

Module Drni.

(** Modelled from the spec: "sysId, a 64-bit identifier, conceptually
    {16-bit priority, 48-bit MAC}", ordered with the priority first: the
    member [addr] of the union is the low 48 bits of [id]. *)
Definition addr (id : Z) : Z := Z.land id (2 ^ 48 - 1).

Definition ushort (x : Z) : Z := x mod 2 ^ 16.

(** [DistributedRelay(adminDrniId.id, adminDrniKey)] *)
Record DistributedRelay := mkDistributedRelay { adminDrniId : Z; adminDrniKey : Z }.

(** The part of a LinkAgg shim that [main] touches: the administrative
    keys of its Aggregators and its Distributed Relays. *)
Record LinkAgg := mkLinkAgg {
  aAggActorAdminKey : list Z;
  pDistRelays : list (option DistributedRelay)
}.

Section Main.
(** Constants declared in headers that are not part of this file. *)
Context (defaultActorKey defaultDrniKey : Z).

Definition numDrniPorts : nat := 2.
Definition numIrp : nat := 2.

(** [bridge.bPorts.size() - (numDrniPorts + numIrp)] for the bridges, 0
    for the end stations. *)
Definition bridge_drniMacIndex : nat := Driver.brgMacCnt - (numDrniPorts + numIrp).
Definition endStn_drniMacIndex : nat := 0.

Definition aggKey (dev drniMacIndex : nat) : Z :=
  ushort (Z.lor (Z.lor (Z.land defaultActorKey 0xf000) (Z.of_nat dev * 0x100))
                (Z.of_nat drniMacIndex + 1)).

(** A LinkAgg shim with [n] Aggregators of the default key and no
    Distributed Relay. *)
Definition newLinkAgg (n : nat) : LinkAgg :=
  mkLinkAgg (replicate n defaultActorKey) (replicate n None).

End Main.

End Drni.

(** ** The other scripted tests *)

Module Scenarios.
Import Driver.

(** A scripted test: what it does between the reset of the devices and
    its loop, and the schedule of its loop. *)
Record script := Script { setup : list call; events : Z → Z → list call }.

Section Tests.
(** Constants declared in headers that are not part of this file. *)
Context (defaultActorKey unusedAggregatorKey CVlanEthertype : Z).

Definition lagLoopbackTest_events (start Time : Z) : list call :=
  at_time Time start 10 [Connect (pMacs 0 0) (pMacs 0 0) 5] ++
  at_time Time start 100 [Connect (pMacs 0 1) (pMacs 0 3) 5] ++
  at_time Time start 200 [Connect (pMacs 0 5) (pMacs 0 5) 5] ++
  at_time Time start 300 [Connect (pMacs 0 2) (pMacs 0 4) 5] ++
  at_time Time start 400 [Disconnect (pMacs 0 0)] ++
  at_time Time start 500 [Disconnect (pMacs 0 5)] ++
  at_time Time start 600 [Connect (pMacs 0 0) (pMacs 0 5) 5] ++
  at_time Time start 700 [Disconnect (pMacs 0 0)] ++
  at_time Time start 800 [Connect (pMacs 0 0) (pMacs 0 0) 5] ++
  at_time Time start 990 disconnect_all.

Definition limitedAggregatorsTest_events (start Time : Z) : list call :=
  at_time Time start 1
    [set_aAggPortActorAdminKey 0 1 0x999; set_aAggPortActorAdminKey 0 3 0x999;
     set_aAggPortActorAdminKey 0 5 0x999;
     set_aAggActorAdminKey 0 1 0x999; set_aAggActorAdminKey 0 4 0x999] ++
  at_time Time start 10 [Connect (pMacs 0 0) (pMacs 1 0) 5] ++
  at_time Time start 100 [Connect (pMacs 0 1) (pMacs 1 1) 5] ++
  at_time Time start 200 [Connect (pMacs 0 3) (pMacs 1 3) 5] ++
  at_time Time start 300 [Connect (pMacs 0 5) (pMacs 1 5) 5] ++
  at_time Time start 400 [Disconnect (pMacs 0 3)] ++
  at_time Time start 500 [Disconnect (pMacs 0 5)] ++
  at_time Time start 600 [Connect (pMacs 0 3) (pMacs 2 3) 5] ++
  at_time Time start 700 [Connect (pMacs 0 5) (pMacs 2 5) 5] ++
  at_time Time start 800 [Connect (pMacs 0 4) (pMacs 2 4) 5] ++
  at_time Time start 900 [Connect (pMacs 0 2) (pMacs 2 2) 5] ++
  at_time Time start 990
    ([set_aAggPortActorAdminKey 0 1 defaultActorKey;
      set_aAggPortActorAdminKey 0 3 defaultActorKey;
      set_aAggPortActorAdminKey 0 5 defaultActorKey;
      set_aAggActorAdminKey 0 1 defaultActorKey;
      set_aAggActorAdminKey 0 4 defaultActorKey] ++ disconnect_all).

(** [for (auto pAgg : dev0Lag.pAggregators)] visits one Aggregator for
    each Mac of the bridge, as the loops of [waitToRestoreTest] do. *)
Definition dualHomingTest_events (start Time : Z) : list call :=
  at_time Time start 10
    [Connect (pMacs 0 0) (pMacs 1 0) 5; Connect (pMacs 0 2) (pMacs 2 2) 5;
     Connect (pMacs 0 3) (pMacs 1 3) 5] ++
  at_time Time start 100
    (((λ agg, set_aAggActorAdminKey 0 agg unusedAggregatorKey) <$> seq 0 brgMacCnt) ++
     [set_aAggActorAdminKey 0 0 defaultActorKey]) ++
  at_time Time start 200 [Disconnect (pMacs 0 0)] ++
  at_time Time start 300 [Disconnect (pMacs 0 3)] ++
  at_time Time start 400 [Connect (pMacs 0 1) (pMacs 2 1) 5] ++
  at_time Time start 500 [Connect (pMacs 0 3) (pMacs 1 3) 5] ++
  at_time Time start 600 [Connect (pMacs 0 0) (pMacs 1 0) 5] ++
  at_time Time start 990
    (((λ agg, set_aAggActorAdminKey 0 agg defaultActorKey) <$> seq 0 brgMacCnt) ++
     disconnect_all).

Definition drniToDrniTest_events (start Time : Z) : list call :=
  at_time Time start 10 [Connect (pMacs 0 6) (pMacs 1 6) 5] ++
  at_time Time start 100 [Connect (pMacs 3 0) (pMacs 0 4) 5] ++
  at_time Time start 200 [Connect (pMacs 4 0) (pMacs 1 4) 5] ++
  at_time Time start 300 [Connect (pMacs 3 3) (pMacs 4 3) 5] ++
  at_time Time start 400
    [Connect (pMacs 3 1) (pMacs 1 5) 5; Connect (pMacs 4 1) (pMacs 0 5) 5] ++
  at_time Time start 600 [Disconnect (pMacs 0 6)] ++
  at_time Time start 700 [Connect (pMacs 0 6) (pMacs 1 6) 5] ++
  at_time Time start 990 disconnect_all.

Definition distRelayTest_events (start Time : Z) : list call :=
  at_time Time start 10 [Connect (pMacs 5 0) (pMacs 0 4) 5] ++
  at_time Time start 100 [Connect (pMacs 0 6) (pMacs 1 6) 5] ++
  at_time Time start 200 [Connect (pMacs 0 7) (pMacs 1 7) 5] ++
  at_time Time start 300 [Connect (pMacs 5 1) (pMacs 1 4) 5] ++
  at_time Time start 400
    [Connect (pMacs 5 2) (pMacs 0 5) 5; Connect (pMacs 5 3) (pMacs 1 5) 5] ++
  at_time Time start 600 [Disconnect (pMacs 0 7)] ++
  at_time Time start 650 [Disconnect (pMacs 0 6)] ++
  at_time Time start 700 [Connect (pMacs 0 6) (pMacs 1 6) 5] ++
  at_time Time start 990 disconnect_all.

Definition drniPartnerTest_events (start Time : Z) : list call :=
  at_time Time start 10 [Connect (pMacs 4 0) (pMacs 1 4) 5] ++
  at_time Time start 100 [Connect (pMacs 3 1) (pMacs 0 5) 5] ++
  at_time Time start 200 [Connect (pMacs 0 6) (pMacs 1 6) 5] ++
  at_time Time start 300 [Disconnect (pMacs 3 1)] ++
  at_time Time start 400 [Connect (pMacs 3 0) (pMacs 1 5) 5] ++
  at_time Time start 500 [Connect (pMacs 3 1) (pMacs 0 5) 5] ++
  at_time Time start 600 [Disconnect (pMacs 3 1)] ++
  at_time Time start 700 [Disconnect (pMacs 0 6)] ++
  at_time Time start 745 [Disconnect (pMacs 3 0)] ++
  at_time Time start 755 [Connect (pMacs 3 0) (pMacs 1 5) 5] ++
  at_time Time start 800 [Connect (pMacs 0 6) (pMacs 1 6) 5] ++
  at_time Time start 900 [Connect (pMacs 3 1) (pMacs 0 5) 5] ++
  at_time Time start 990 disconnect_all.

Definition drniPartnerTestOld_events (start Time : Z) : list call :=
  at_time Time start 10 [Connect (pMacs 4 0) (pMacs 1 4) 5] ++
  at_time Time start 100 [Connect (pMacs 3 0) (pMacs 1 5) 5] ++
  at_time Time start 200 [Connect (pMacs 0 6) (pMacs 1 6) 5] ++
  at_time Time start 300 [Connect (pMacs 3 1) (pMacs 0 5) 5] ++
  at_time Time start 400 [Disconnect (pMacs 1 4); Disconnect (pMacs 1 5)] ++
  at_time Time start 500 [Connect (pMacs 4 0) (pMacs 1 4) 5] ++
  at_time Time start 600 [Connect (pMacs 3 0) (pMacs 1 5) 5] ++
  at_time Time start 700 [Disconnect (pMacs 0 6)] ++
  at_time Time start 800 [Connect (pMacs 0 6) (pMacs 1 6) 5] ++
  at_time Time start 990 disconnect_all.

Definition basicLagTest : script := Script basicLagTest_setup basicLagTest_events.
Definition preferredAggregatorTest : script := Script [] preferredAggregatorTest_events.
Definition lagLoopbackTest : script := Script [] lagLoopbackTest_events.
Definition nonAggregatablePortTest : script := Script [] nonAggregatablePortTest_events.
Definition limitedAggregatorsTest : script := Script [] limitedAggregatorsTest_events.
Definition dualHomingTest : script := Script [] dualHomingTest_events.
Definition distributionTest : script :=
  Script [] (distributionTest_events CVlanEthertype).
Definition waitToRestoreTest : script :=
  Script [] (waitToRestoreTest_events defaultActorKey).
Definition drniToDrniTest : script := Script [] drniToDrniTest_events.
Definition distRelayTest : script := Script [] distRelayTest_events.
Definition drniPartnerTest : script := Script [] drniPartnerTest_events.
Definition drniPartnerTestOld : script := Script [] drniPartnerTestOld_events.

(** The tests whose calls are all among [call], in the order of the
    file. *)
Definition scripts : list script :=
  [basicLagTest; preferredAggregatorTest; lagLoopbackTest; nonAggregatablePortTest;
   limitedAggregatorsTest; dualHomingTest; distributionTest; waitToRestoreTest;
   drniToDrniTest; distRelayTest; drniPartnerTest; drniPartnerTestOld].

(** The tests [main] runs after [SimLog::Time = 0], up to
    [waitToRestoreTest]. *)
Definition main_scripts : list script :=
  [basicLagTest; preferredAggregatorTest; lagLoopbackTest; nonAggregatablePortTest;
   limitedAggregatorsTest; dualHomingTest; distributionTest; waitToRestoreTest].
End Tests.

Section Run.
Context {W : Type} (exec : call → W → W).

Definition run_script (sc : script) (s : @sim W) : @sim W :=
  test exec (setup sc) (events sc) s.

(** One test after the other on the same devices, each taking
    [SimLog::Time] where the one before left it. *)
Definition run_scripts (scs : list script) (s : @sim W) : @sim W :=
  foldl (λ s sc, run_script sc s) s scs.
End Run.

(** The device phases of one iteration. *)
Definition tick_calls : list call :=
  flat_map (λ dev, [timerTick dev; run dev true]) Devices ++ (transmit <$> Devices).

(** The calls of one whole test started at time 0. *)
Definition script_trace (sc : script) : list call :=
  (reset <$> Devices) ++ setup sc ++
  flat_map (λ i, events sc 0 (Z.of_nat i) ++ tick_calls) (seq 0 1000).

(** The devices [main] builds: the number of Macs of each. *)
Definition macCounts : list nat :=
  (λ dev, if decide (dev < brgCnt)%nat then brgMacCnt else endStnMacCnt)
    <$> seq 0 (brgCnt + endStnCnt).

Definition is_device (dev : nat) : bool := bool_decide (dev < length macCounts)%nat.

(** [Devices[dev]->pMacs[idx]] is an element of the vectors. *)
Definition is_mac (m : mac) : bool :=
  match macCounts !! m.1 with
  | Some n => bool_decide (m.2 < n)%nat
  | None => false
  end.

(** [(EndStn&)*(Devices[dev]->pComponents[0])] is an end station. *)
Definition is_endStn (dev : nat) : bool :=
  is_device dev && bool_decide (brgCnt ≤ dev)%nat.

(** The device, the Macs and the end station a call names exist. *)
Definition in_range (c : call) : bool :=
  match c with
  | reset dev | timerTick dev | run dev _ | transmit dev | disconnect dev => is_device dev
  | Connect a b _ => is_mac a && is_mac b
  | Disconnect a => is_mac a
  | generateTestFrame dev _ => is_endStn dev
  | set_aAggPortWTRTime dev _ _ | and_aAggPortActorAdminState dev _ _
  | or_aAggPortActorAdminState dev _ _ | set_aAggPortActorAdminKey dev _ _
  | set_aAggPortLinkNumberID dev _ _ | set_aAggActorAdminKey dev _ _
  | setEnabled dev _ _ | set_aAggPortAlgorithm dev _ _
  | set_aAggConversationAdminLink dev _ _ _ | set_aAggConversationListDigest dev _ _
  | set_convLinkMap dev _ _ => is_device dev
  | printLinkMap => true
  end.

End Scenarios.

(** ** The Link Aggregation machines the driver runs *)

Module Lacp.

(** Modelled from the spec: the AggPorts and Aggregators of a Device, the
    LACPDUs they exchange over the links and the Selection Logic, none
    of which has its code in [drni.cpp].  The model follows sections
    4.1, 4.2 and 5 of the specification.  It leaves out the periodic
    retransmission of LACPDUs and the timeouts of the Receive machine (a
    LACPDU is sent when NTT is set, and the partner view is kept until
    another LACPDU replaces it), the non-revertive mode of
    Wait-To-Restore, the loopback special case of Selection and the
    Distributed Relays.  All ports have the default port priority, so
    that the order of the portIds is the order of the port indices.

    The states of the Mux machine: "coupled-control variant states:
    DETACHED, WAITING, ATTACHED, COLLECTING_DISTRIBUTING". *)
Inductive MuxState := DETACHED | WAITING | ATTACHED | COLLECTING_DISTRIBUTING.

#[global] Instance MuxState_eq_dec : EqDecision MuxState.
Proof. solve_decision. Defined.

(** Modelled from the spec: the actor record a LACPDU carries, from
    which the receiver takes its partner view: the sender's system (the
    index of its Device), key and port, and the aggregation, sync,
    collecting and distributing bits of its state byte. *)
Record Lacpdu := mkLacpdu {
  actorSystem : nat;
  actorKey : Z;
  actorPort : nat;
  actorAggregation : bool;
  actorSync : bool;
  actorCollecting : bool;
  actorDistributing : bool
}.

#[global] Instance Lacpdu_eq_dec : EqDecision Lacpdu.
Proof. solve_decision. Defined.

(** Modelled from the spec: an AggPort.  [link] is the "physical link
    handle": the Mac at the other end and the delay of the link, as
    [Mac::Connect] set them; [enabled] is the peer the machines of the
    port have seen the link come up to at their last run.  Then the
    administrative key, the aggregation bit of the state byte, the
    administrative WTR time, the partner view, the Aggregator that
    Selection has bound the port to, the state of the Mux machine, the
    timers [waitWhile] and WTR, and NTT. *)
Record AggPort := mkAggPort {
  link : option (mac * nat);
  enabled : option mac;
  actorAdminKey : Z;
  aggregation : bool;
  wtrTime : Z;
  partner : option Lacpdu;
  selected : option nat;
  mux : MuxState;
  waitWhile : nat;
  wtrWhile : nat;
  NTT : bool
}.

(** Modelled from the spec: an Aggregator, with its administrative key
    and whether it is enabled ([setEnabled]). *)
Record Aggregator := mkAggregator { aggAdminKey : Z; aggEnabled : bool }.

(** Modelled from the spec: the LinkAgg shim of a Device: its AggPorts
    and its Aggregators, the Aggregator of index i being the preferred
    Aggregator of the AggPort of index i. *)
Record Device := mkDevice { ports : list AggPort; aggregators : list Aggregator }.

(** Modelled from the spec: a LACPDU in flight on a link, with the
    number of ticks it still has to travel and the Mac it arrives at. *)
Record Frame := mkFrame { remaining : nat; destination : mac; pdu : Lacpdu }.

(** Modelled from the spec: the Devices and the frames in flight.  "A
    Link is a FIFO of frames-in-flight whose dequeue time equals enqueue
    time plus a per-link propagation delay." *)
Record network := Network { devices : list Device; wire : list Frame }.

(** Modelled from the spec: "aggregateWait ≈ 2 ticks". *)
Definition aggregateWaitTime : nat := 2.

(** Modelled from the spec: "ATTACHED asserts sync"; the coupled-control
    Mux machine collects and distributes in COLLECTING_DISTRIBUTING. *)
Definition sync (p : AggPort) : bool :=
  match mux p with ATTACHED | COLLECTING_DISTRIBUTING => true | _ => false end.

(** Modelled from the spec: the collecting bit of the state byte. *)
Definition collecting (p : AggPort) : bool :=
  match mux p with COLLECTING_DISTRIBUTING => true | _ => false end.

(** Modelled from the spec: the distributing bit of the state byte. *)
Definition distributing (p : AggPort) : bool := collecting p.

(** Modelled from the spec: the recorded partner.sync. *)
Definition partner_sync (p : AggPort) : bool :=
  match partner p with Some u => actorSync u | None => false end.


(** Modelled from the spec: [Mac::Connect] and [Mac::Disconnect] change
    the link of a Mac. *)
Definition set_link (l : option (mac * nat)) (p : AggPort) : AggPort :=
  mkAggPort l (enabled p) (actorAdminKey p) (aggregation p) (wtrTime p) (partner p)
            (selected p) (mux p) (waitWhile p) (wtrWhile p) (NTT p).

(** Modelled from the spec: [set_aAggPortActorAdminKey]. *)
Definition set_key (k : Z) (p : AggPort) : AggPort :=
  mkAggPort (link p) (enabled p) k (aggregation p) (wtrTime p) (partner p)
            (selected p) (mux p) (waitWhile p) (wtrWhile p) (NTT p).

(** Modelled from the spec: a write to the aggregation bit of the
    administrative state; the partner has to be told, so NTT is set. *)
Definition set_aggregation (b : bool) (p : AggPort) : AggPort :=
  mkAggPort (link p) (enabled p) (actorAdminKey p) b (wtrTime p) (partner p)
            (selected p) (mux p) (waitWhile p) (wtrWhile p) true.

(** Modelled from the spec: [set_aAggPortWTRTime]. *)
Definition set_wtrTime (t : Z) (p : AggPort) : AggPort :=
  mkAggPort (link p) (enabled p) (actorAdminKey p) (aggregation p) t (partner p)
            (selected p) (mux p) (waitWhile p) (wtrWhile p) (NTT p).

(** Modelled from the spec: a write to NTT. *)
Definition set_NTT (b : bool) (p : AggPort) : AggPort :=
  mkAggPort (link p) (enabled p) (actorAdminKey p) (aggregation p) (wtrTime p) (partner p)
            (selected p) (mux p) (waitWhile p) (wtrWhile p) b.

(** Modelled from the spec: a transition of the Mux machine to state [m]
    with [waitWhile] set to [ww].  "Any state change sets NTT." *)
Definition set_mux (m : MuxState) (ww : nat) (p : AggPort) : AggPort :=
  mkAggPort (link p) (enabled p) (actorAdminKey p) (aggregation p) (wtrTime p) (partner p)
            (selected p) m ww (wtrWhile p) true.

(** Modelled from the spec: Selection binds the port to an Aggregator or
    makes it unselected.  A port whose binding changes leaves the
    Aggregator it was attached to: its Mux machine is back in DETACHED,
    and its partner is told. *)
Definition set_selected (s : option nat) (p : AggPort) : AggPort :=
  if decide (selected p = s) then p
  else mkAggPort (link p) (enabled p) (actorAdminKey p) (aggregation p) (wtrTime p) (partner p)
                 s DETACHED 0 (wtrWhile p) true.

(** Modelled from the spec: [Device::reset] puts the machines of a port
    in their initial state; the administrative values and the link
    stay. *)
Definition port_reset (p : AggPort) : AggPort :=
  mkAggPort (link p) None (actorAdminKey p) (aggregation p) (wtrTime p) None
            None DETACHED 0 0 false.

(** Modelled from the spec: "Timers decrement once per tick before state
    evaluation." *)
Definition port_timerTick (p : AggPort) : AggPort :=
  mkAggPort (link p) (enabled p) (actorAdminKey p) (aggregation p) (wtrTime p) (partner p)
            (selected p) (mux p) (pred (waitWhile p)) (pred (wtrWhile p)) (NTT p).

(** Modelled from the spec: "WTR duration (with non-revertive bit)": the
    low 15 bits of the WTR time are the duration in ticks. *)
Definition wtrDuration (t : Z) : nat := Z.to_nat (Z.land t 0x7fff).

(** Modelled from the spec: the partner view of a port that is not
    enabled, as on expiry: "keep partner info, set partner.sync=false". *)
Definition out_of_sync (u : Lacpdu) : Lacpdu :=
  mkLacpdu (actorSystem u) (actorKey u) (actorPort u) (actorAggregation u) false false false.

(** Modelled from the spec: "When port goes un-enabled: → PORT_DISABLED."
    The port leaves its Aggregator and its timers stop. *)
Definition port_down (p : AggPort) : AggPort :=
  mkAggPort (link p) None (actorAdminKey p) (aggregation p) (wtrTime p) (out_of_sync <$> partner p)
            None DETACHED 0 0 false.

(** Modelled from the spec: "A port that has just become enabled and
    selected may be held out of ATTACHED for aggPortWTRTime ticks": the
    WTR timer starts when the port becomes enabled. *)
Definition port_up (peer : mac) (p : AggPort) : AggPort :=
  mkAggPort (link p) (Some peer) (actorAdminKey p) (aggregation p) (wtrTime p) (partner p)
            None DETACHED 0
            (wtrDuration (wtrTime p)) true.

(** Modelled from the spec: the machines of port [i] see the changes of
    its link: a link that has gone (or has been moved to another Mac)
    takes the port down, a link that is there brings it up. *)
Definition link_change (i : nat) (ps : list AggPort) : list AggPort :=
  match ps !! i with
  | None => ps
  | Some p =>
      if decide (enabled p = fst <$> link p) then ps
      else
        let p := match enabled p with Some _ => port_down p | None => p end in
        let p := match link p with Some (peer, _) => port_up peer p | None => p end in
        <[i := p]> ps
  end.

(** Modelled from the spec: the Receive machine of an enabled port: "on
    each arriving LACPDU [...] update the port's partnerOperView from
    the PDU's actor fields, record partner.sync/collecting/distributing,
    [...] and set NTT (need-to-transmit) if any recorded field
    changed". *)
Definition receive (u : Lacpdu) (p : AggPort) : AggPort :=
  match enabled p with
  | None => p
  | Some _ =>
      if decide (partner p = Some u) then p
      else mkAggPort (link p) (enabled p) (actorAdminKey p) (aggregation p) (wtrTime p) (Some u)
                     (selected p) (mux p) (waitWhile p) (wtrWhile p) true
  end.

(** Modelled from the spec: Wait-To-Restore lets the port go on when its
    timer has run out. *)
Definition wtr_ready (p : AggPort) : bool := Nat.eqb (wtrWhile p) 0.

(** Modelled from the spec: one transition of the Mux machine.  "Entry
    to WAITING starts waitWhile (aggregateWaitTime).  Progression to
    ATTACHED requires Selection = SELECTED and waitWhile expired",
    and Wait-To-Restore holds the port "out of ATTACHED";
    "COLLECTING_DISTRIBUTING requires partner.sync.  On Selection =
    UNSELECTED, return via ATTACHED → DETACHED". *)
Definition mux_step (p : AggPort) : AggPort :=
  match mux p, selected p with
  | DETACHED, Some _ => set_mux WAITING aggregateWaitTime p
  | DETACHED, None => p
  | WAITING, Some _ =>
      if Nat.eqb (waitWhile p) 0 && wtr_ready p then set_mux ATTACHED 0 p else p
  | WAITING, None => set_mux DETACHED 0 p
  | ATTACHED, Some _ =>
      if partner_sync p then set_mux COLLECTING_DISTRIBUTING 0 p else p
  | ATTACHED, None => set_mux DETACHED 0 p
  | COLLECTING_DISTRIBUTING, Some _ =>
      if partner_sync p then p else set_mux ATTACHED 0 p
  | COLLECTING_DISTRIBUTING, None => set_mux ATTACHED 0 p
  end.

(** Modelled from the spec: the transition function is "evaluated
    repeatedly until no state change occurs in that tick"; no chain of
    transitions of the Mux machine is longer than two. *)
Definition mux_run (p : AggPort) : AggPort := mux_step (mux_step (mux_step p)).

(** Modelled from the spec: the LagId without "the port-specific
    fields": the actor's key (the actor's system is the Device), the
    system and key of the partner if one is known, and the port itself
    for an individual port, which uses "a synthesized LagId that
    includes portId". *)
Record LagId := mkLagId {
  lagKey : Z;
  lagPartner : option (nat * Z);
  lagPort : option nat
}.

#[global] Instance LagId_eq_dec : EqDecision LagId.
Proof. solve_decision. Defined.

(** Modelled from the spec: "Individual (non-aggregatable) ports — whose
    aggregation bit is clear"; a port whose partner has the bit clear is
    linked to an individual port and stands alone as well
    ([nonAggregatablePortTest]: "Each link (2,3,4) comes up as a separate
    LAG because of the setting of the aggregation control bits"). *)
Definition individual (p : AggPort) : bool :=
  negb (aggregation p) ||
  match partner p with Some u => negb (actorAggregation u) | None => false end.

(** Modelled from the spec: the LagId of port [i]; a port that is not
    enabled has the null LagId. *)
Definition lagId (i : nat) (p : AggPort) : option LagId :=
  match enabled p with
  | None => None
  | Some _ =>
      Some (mkLagId (actorAdminKey p)
                    ((λ u, (actorSystem u, actorKey u)) <$> partner p)
                    (if individual p then Some i else None))
  end.

Section Selection.
Context (aggs : list Aggregator) (ps : list AggPort).

(** Modelled from the spec: the LagId of the port of index [j]. *)
Definition lagIdAt (j : nat) : option LagId :=
  match ps !! j with Some q => lagId j q | None => None end.

(** Modelled from the spec: "Group AggPorts by LagId": the ports of a
    LagId, lowest portId first. *)
Definition members (id : LagId) : list nat :=
  filter (λ j, lagIdAt j = Some id) (seq 0 (length ps)).

(** Modelled from the spec: the ports an Aggregator holds. *)
Definition holders (agg : nat) : list nat :=
  filter (λ j, (ps !! j) ≫= selected = Some agg) (seq 0 (length ps)).

(** Modelled from the spec: an Aggregator a group can use: it is
    enabled and its "adminKey matches the group's key". *)
Definition eligible (id : LagId) (agg : nat) : bool :=
  match aggs !! agg with
  | Some a => aggEnabled a && (aggAdminKey a =? lagKey id)
  | None => false
  end.

(** Modelled from the spec: the Aggregator is free for the group: it
    "is not holding another LAG". *)
Definition free_for (id : LagId) (agg : nat) : bool :=
  forallb (λ h, bool_decide (lagIdAt h = Some id)) (holders agg).

(** Modelled from the spec: "the lowest-portId port in the group". *)
Definition lowest (id : LagId) : option nat := head (members id).

(** Modelled from the spec: the group of port [h] has lower priority
    than the group [id]: its lowest portId is higher. *)
Definition lower_priority (id : LagId) (h : nat) : bool :=
  match lowest id, lagIdAt h ≫= lowest with
  | Some a, Some b => bool_decide (a < b)%nat
  | _, _ => false
  end.

(** Modelled from the spec: the Aggregator is "holding only
    lower-priority groups". *)
Definition lower_priority_only (id : LagId) (agg : nat) : bool :=
  forallb (λ h, bool_decide (lagIdAt h = Some id) || lower_priority id h) (holders agg).

(** Modelled from the spec: rule (a), "the Aggregator currently holding
    any port of the group", if the group can use it.  The spec does not
    say which to take when several hold ports of the group; here it is
    that of the lowest port. *)
Definition current_holder (id : LagId) : option nat :=
  head (filter (λ agg, eligible id agg = true)
               (omap (λ j, (ps !! j) ≫= selected) (members id))).

(** Modelled from the spec: rule (b), "the preferred Aggregator of the
    lowest-portId port in the group, if free or holding only
    lower-priority groups". *)
Definition preferred (id : LagId) : option nat :=
  agg ← lowest id;
  if eligible id agg && (free_for id agg || lower_priority_only id agg)
  then Some agg else None.

(** Modelled from the spec: rule (c), "the lowest-indexed Aggregator
    whose adminKey matches the group's key and that is not holding
    another LAG". *)
Definition lowest_free (id : LagId) : option nat :=
  head (filter (λ agg, eligible id agg && free_for id agg = true) (seq 0 (length aggs))).

(** Modelled from the spec: "pick a target Aggregator by this strict
    priority": (a), then (b), then (c). *)
Definition target (id : LagId) : option nat :=
  match current_holder id with
  | Some t => Some t
  | None => match preferred id with
            | Some t => Some t
            | None => lowest_free id
            end
  end.

(** Modelled from the spec: the ports of the group are bound to the
    target; if the target Aggregator "is held by a different group,
    evict ALL its members". *)
Definition seat (id : LagId) (t : nat) (j : nat) (q : AggPort) : AggPort :=
  if decide (lagId j q = Some id) then set_selected (Some t) q
  else if decide (selected q = Some t) then set_selected None q
  else q.

(** Modelled from the spec: Selection for the group of port [i]; "null
    ports are unselected", and so is a port without a target. *)
Definition select_port (i : nat) : list AggPort :=
  match lagIdAt i with
  | None => alter (set_selected None) i ps
  | Some id =>
      match target id with
      | Some t => imap (seat id t) ps
      | None => alter (set_selected None) i ps
      end
  end.
End Selection.

(** Modelled from the spec: the Selection Logic runs "once per Device
    per tick": the groups are taken in the order of their ports. *)
Definition selection (aggs : list Aggregator) (ps : list AggPort) : list AggPort :=
  foldl (select_port aggs) ps (seq 0 (length ps)).

(** Modelled from the spec: the frame has arrived at a Mac of Device
    [d]. *)
Definition arrived (d : nat) (f : Frame) : bool :=
  Nat.eqb (destination f).1 d && Nat.eqb (remaining f) 0.

(** Modelled from the spec: "RxSMs process all already-delivered
    PDUs". *)
Definition deliver (d : nat) (fs : list Frame) (ps : list AggPort) : list AggPort :=
  foldl (λ ps f, if arrived d f then alter (receive (pdu f)) (destination f).2 ps else ps) ps fs.

(** Modelled from the spec: "within a single device and tick, the order
    of operations is (i) decrement all timers, (ii) RxSMs process all
    already-delivered PDUs, (iii) PtxSM/MuxSM/WtrSM evaluate, (iv)
    Selection Logic runs once"; (i) is [timerTick], the rest is [run],
    which first looks at the links. *)
Definition port_machines (aggs : list Aggregator) (d : nat) (fs : list Frame)
    (ps : list AggPort) : list AggPort :=
  let ps := foldl (λ ps i, link_change i ps) ps (seq 0 (length ps)) in
  let ps := deliver d fs ps in
  let ps := mux_run <$> ps in
  selection aggs ps.

(** Modelled from the spec: [Device::run]: the machines of the ports of
    Device [d]; the frames that have arrived are taken off the links. *)
Definition device_run (d : nat) (w : network) : network :=
  Network (alter (λ dev, mkDevice (port_machines (aggregators dev) d (wire w) (ports dev))
                                  (aggregators dev)) d (devices w))
          (filter (λ f, arrived d f = false) (wire w)).

(** Modelled from the spec: [Device::timerTick]: the timers of the ports
    of Device [d], and one tick of travel for the frames on their way
    to it. *)
Definition device_timerTick (d : nat) (w : network) : network :=
  Network (alter (λ dev, mkDevice (port_timerTick <$> ports dev) (aggregators dev)) d (devices w))
          ((λ f, if Nat.eqb (destination f).1 d
                 then mkFrame (pred (remaining f)) (destination f) (pdu f) else f) <$> wire w).

(** Modelled from the spec: the LACPDU of port [i] of Device [d]: "the
    PDU carries the AggPort's actor record". *)
Definition port_pdu (d i : nat) (p : AggPort) : Lacpdu :=
  mkLacpdu d (actorAdminKey p) i (aggregation p) (sync p) (collecting p) (distributing p).

(** Modelled from the spec: the Transmit machine emits "a PDU whenever
    NTT is set", on the link of the port, with the delay of the link. *)
Definition port_transmit (d i : nat) (p : AggPort) : option Frame :=
  match link p, enabled p with
  | Some (peer, delay), Some _ =>
      if NTT p then Some (mkFrame delay peer (port_pdu d i p)) else None
  | _, _ => None
  end.

(** Modelled from the spec: [Device::transmit]: "drain queued
    transmissions onto links". *)
Definition device_transmit (d : nat) (w : network) : network :=
  match devices w !! d with
  | None => w
  | Some dev =>
      Network (<[d := mkDevice (set_NTT false <$> ports dev) (aggregators dev)]> (devices w))
              (wire w ++ omap (λ x, x) (imap (port_transmit d) (ports dev)))
  end.

(** Modelled from the spec: [Device::reset]. *)
Definition device_reset (d : nat) (w : network) : network :=
  Network (alter (λ dev, mkDevice (port_reset <$> ports dev) (aggregators dev)) d (devices w))
          (wire w).

(** Modelled from the spec: a change of the port behind Mac [m]. *)
Definition alter_port (f : AggPort → AggPort) (m : mac) (w : network) : network :=
  Network (alter (λ dev, mkDevice (alter f m.2 (ports dev)) (aggregators dev)) m.1 (devices w))
          (wire w).

(** Modelled from the spec: the port behind Mac [m]. *)
Definition port_at (w : network) (m : mac) : option AggPort :=
  dev ← devices w !! m.1; ports dev !! m.2.

(** Modelled from the spec: the frames on their way to Mac [m] are lost
    with its link. *)
Definition drop_frames (m : mac) (w : network) : network :=
  Network (devices w) (filter (λ f, destination f ≠ m) (wire w)).

(** Modelled from the spec: [Mac::Disconnect]: the link of Mac [a] is
    taken away at both ends.  "Link attachments (the MAC↔MAC pairing)
    are the only runtime-mutable topology." *)
Definition unlink (a : mac) (w : network) : network :=
  match port_at w a ≫= link with
  | Some (b, _) =>
      drop_frames a (drop_frames b (alter_port (set_link None) a (alter_port (set_link None) b w)))
  | None => w
  end.

(** Modelled from the spec: [Mac::Connect]: a link of the given delay
    between two Macs; a Mac is on one link at most, so the links they
    were on go first. *)
Definition connect (a b : mac) (delay : Z) (w : network) : network :=
  let w := unlink b (unlink a w) in
  alter_port (set_link (Some (a, Z.to_nat delay))) b
    (alter_port (set_link (Some (b, Z.to_nat delay))) a w).

(** Modelled from the spec: [Device::disconnect]: all remaining links
    of the Device are taken away. *)
Definition disconnect_device (d : nat) (w : network) : network :=
  match devices w !! d with
  | None => w
  | Some dev => foldl (λ w i, unlink (pMacs d i) w) w (seq 0 (length (ports dev)))
  end.

(** Modelled from the spec: a change of Aggregator [agg] of Device
    [d]. *)
Definition alter_aggregator (f : Aggregator → Aggregator) (d agg : nat) (w : network)
    : network :=
  Network (alter (λ dev, mkDevice (ports dev) (alter f agg (aggregators dev))) d (devices w))
          (wire w).

(** Modelled from the spec: what the calls of the driver do.  The
    machines compare keys with one another and do nothing else with
    them, and every AggPort and Aggregator is created with the key
    [defaultActorKey], the value the tests write back to "Restore all
    default values": a key is kept as its distance from
    [defaultActorKey] as an [unsigned short], which is 0 for the default
    key and is the same for two keys exactly when they are the same
    [unsigned short].  Link numbers, port algorithms, conversation maps
    and test frames have no part in the machines modelled. *)
Definition exec (defaultActorKey : Z) (c : call) (w : network) : network :=
  match c with
  | reset d => device_reset d w
  | timerTick d => device_timerTick d w
  | run d _ => device_run d w
  | transmit d => device_transmit d w
  | disconnect d => disconnect_device d w
  | Connect a b delay => connect a b delay w
  | Disconnect a => unlink a w
  | set_aAggPortWTRTime d i t => alter_port (set_wtrTime t) (pMacs d i) w
  | and_aAggPortActorAdminState d i mask =>
      alter_port (λ p, set_aggregation (aggregation p && Z.testbit mask 2) p) (pMacs d i) w
  | or_aAggPortActorAdminState d i bits =>
      alter_port (λ p, set_aggregation (aggregation p || Z.testbit bits 2) p) (pMacs d i) w
  | set_aAggPortActorAdminKey d i k =>
      alter_port (set_key (Drni.ushort (k - defaultActorKey))) (pMacs d i) w
  | set_aAggActorAdminKey d agg k =>
      alter_aggregator (λ a, mkAggregator (Drni.ushort (k - defaultActorKey)) (aggEnabled a))
                       d agg w
  | setEnabled d agg b => alter_aggregator (λ a, mkAggregator (aggAdminKey a) b) d agg w
  | _ => w
  end.

(** Modelled from the spec: an AggPort as created: no link, the default
    key, aggregatable, "default WTR ≈ 0 (disabled)". *)
Definition newPort : AggPort :=
  mkAggPort None None 0 true 0 None None DETACHED 0 0 false.

(** Modelled from the spec: a Device with [n] Macs has [n] AggPorts and
    [n] Aggregators. *)
Definition newDevice (n : nat) : Device :=
  mkDevice (replicate n newPort) (replicate n (mkAggregator 0 true)).

(** The Devices [main] creates. *)
Definition fresh : network :=
  Network (newDevice <$> Scenarios.macCounts) [].

(** The network at the end of the iteration with
    [SimLog::Time = start + t] of a test without preparation that
    begins at time [start] on the Devices as created. *)
Definition outcome (defaultActorKey : Z) (events : Z → Z → list call) (start : Z) (t : nat)
    : network :=
  Driver.world
    (Driver.loop (exec defaultActorKey) (S t) events start
       (Driver.start_test (exec defaultActorKey) [] (Driver.Sim start fresh))).


(** The Aggregators that the ports of Device [d] are bound to. *)
Definition seats (w : network) (d : nat) : list (option nat) :=
  match devices w !! d with
  | Some dev => selected <$> ports dev
  | None => []
  end.

(** The ports of Device [d] that are distributing. *)
Definition active (w : network) (d : nat) : list nat :=
  match devices w !! d with
  | Some dev =>
      filter (λ i, distributing <$> ports dev !! i = Some true) (seq 0 (length (ports dev)))
  | None => []
  end.

(** [obs] holds, with value [true], at the ticks [lo <= t < hi] of a
    trajectory. *)
Definition holds (traj : list network) (lo hi : nat) (obs : nat → network → bool) : bool :=
  forallb (λ t, match traj !! t with Some w => obs t w | None => false end)
          (seq lo (hi - lo)).

(** Port [i] is bound to an Aggregator with ports of its own LagId
    only. *)
Definition among_its_own (ps : list AggPort) (i : nat) : Prop :=
  ∀ p a, ps !! i = Some p → selected p = Some a →
    is_Some (lagId i p) ∧
    ∀ j q, ps !! j = Some q → selected q = Some a → lagId j q = lagId i p.

(** No port with the aggregation bit clear is bound to the Aggregator
    of another port. *)
Definition solitary (ps : list AggPort) : Prop :=
  ∀ i j p q a, ps !! i = Some p → ps !! j = Some q → i ≠ j →
    aggregation p = false → selected p = Some a → selected q ≠ Some a.

(** The same, of the ports of Device [d]. *)
Definition solitary_in (w : network) (d : nat) : Prop :=
  ∀ dev, devices w !! d = Some dev → solitary (ports dev).

End Lacp.

(** ** The administrative keys written by the tests *)

Module AdminKeys.

(** For each AggPort and each Aggregator, as [(dev, index)], the key of
    the last call of [set_aAggPortActorAdminKey] and of
    [set_aAggActorAdminKey] on it.  The setters take an [unsigned
    short]: the [int] the driver computes is converted at the call. *)
Record written := Written {
  aAggPortActorAdminKey : gmap (nat * nat) Z;
  aAggActorAdminKey : gmap (nat * nat) Z
}.

Definition exec (c : call) (w : written) : written :=
  match c with
  | set_aAggPortActorAdminKey dev port key =>
      Written (<[(dev, port) := Drni.ushort key]> (aAggPortActorAdminKey w))
              (aAggActorAdminKey w)
  | set_aAggActorAdminKey dev agg key =>
      Written (aAggPortActorAdminKey w)
              (<[(dev, agg) := Drni.ushort key]> (aAggActorAdminKey w))
  | _ => w
  end.

Definition nothing : written := Written ∅ ∅.

(** The keys written by the tests of [main] up to [waitToRestoreTest]. *)
Definition after_main (defaultActorKey unusedAggregatorKey CVlanEthertype start : Z)
    : written :=
  Driver.world
    (Scenarios.run_scripts exec
       (Scenarios.main_scripts defaultActorKey unusedAggregatorKey CVlanEthertype)
       (Driver.Sim start nothing)).

End AdminKeys.

(** ** The loop of main that creates the Distributed Relays of the bridges *)

Module DrniSetup.
Import Drni.

(** What the [pIss] of a bridge port points at: what [createBridge] has
    attached to it, a Distributed Relay, or [nullptr]. *)
Inductive Iss (A : Type) :=
  | attached (a : A)
  | relay (pDR : DistributedRelay)
  | nullptr.
Arguments attached {A} _.
Arguments relay {A} _.
Arguments nullptr {A}.

(** The arguments of a call of [LinkAgg::configDistRelay]. *)
Record configDistRelay := ConfigDistRelay {
  distRelayIndex : Z;
  numAggPorts : Z;
  numIrps : Z;
  cfg_adminDrniId : Z;
  cfg_adminDrniKey : Z;
  firstLinkNumber : Z
}.

(** The part of a bridge Device the loop acts on: the ports of its
    Bridge, its LinkAgg shim, and the calls of [configDistRelay] made on
    the shim. *)
Record device (A : Type) := Device {
  bPorts : list (Iss A);
  lag : LinkAgg;
  configured : list configDistRelay
}.
Arguments Device {A} _ _ _.
Arguments bPorts {A} _.
Arguments lag {A} _.
Arguments configured {A} _.

(** Arithmetic of [size_t] (64 bits) and its conversion to [int]
    (32 bits, two's complement). *)
Definition size_t (x : Z) : Z := x mod 2 ^ 64.
Definition int (x : Z) : Z := (x + 2 ^ 31) mod 2 ^ 32 - 2 ^ 31.

(** [v[i]] on a [std::vector] with an [int] index: outside the vector
    the behaviour is undefined, here the failure [None]. *)
Definition vector_at {X} (v : list X) (i : Z) : option X :=
  if decide (0 ≤ i) then v !! Z.to_nat i else None.

Definition vector_set {X} (v : list X) (i : Z) (x : X) : option (list X) :=
  if decide (0 ≤ i < Z.of_nat (length v)) then Some (<[Z.to_nat i := x]> v) else None.

Section Main.
(** Constants declared in headers that are not part of this file. *)
Context (defaultActorKey defaultDrniKey : Z).
Context {A : Type}.

(** The body of [for (int dev = 0; dev < 2; dev++)], in the order of the
    source: the key of Aggregator [drniMacIndex] is set before the test
    [drniMacIndex >= 0]. *)
Definition configure_bridge (adminDrniId dev : Z) (b : device A) (firstLinkNum : Z)
    : option (device A * Z) :=
  let numDrniPorts := 2 in
  let numIrp := 2 in
  let drniMacIndex :=
    int (size_t (Z.of_nat (length (bPorts b)) - size_t (numDrniPorts + numIrp))) in
  let aggKey :=
    ushort (Z.lor (Z.lor (Z.land defaultActorKey 0xf000) (dev * 0x100))
                  (drniMacIndex + 1)) in
  keys ← vector_set (aAggActorAdminKey (lag b)) drniMacIndex aggKey;
  if decide (0 ≤ drniMacIndex) then
    adminDrniKey ←
      (if decide (addr adminDrniId ≠ 0) then Some defaultDrniKey
       else vector_at keys drniMacIndex);
    let pDR := mkDistributedRelay adminDrniId adminDrniKey in
    relays ← vector_set (pDistRelays (lag b)) drniMacIndex (Some pDR);
    let cfg := ConfigDistRelay drniMacIndex numDrniPorts numIrp
                               adminDrniId adminDrniKey firstLinkNum in
    let firstLinkNum := ushort (firstLinkNum + numDrniPorts) in
    ports ← vector_set (bPorts b) drniMacIndex (relay pDR);
    ports ← foldl (λ ports px, ports ← ports; vector_set ports px nullptr)
                  (Some ports)
                  (seqZ (drniMacIndex + 1) (numDrniPorts + numIrp - 1));
    Some (Device ports (mkLinkAgg keys relays) (configured b ++ [cfg]), firstLinkNum)
  else
    Some (Device (bPorts b) (mkLinkAgg keys (pDistRelays (lag b))) (configured b),
          firstLinkNum).

(** [unsigned short firstLinkNum = 1; for (int dev = 0; dev < 2; dev++)]
    on [Devices[dev]]. *)
Definition main_bridges (adminDrniId : Z) (Devices : list (device A))
    : option (list (device A) * Z) :=
  foldl (λ st dev,
           '(Devices, firstLinkNum) ← st;
           b ← Devices !! dev;
           '(b, firstLinkNum) ← configure_bridge adminDrniId (Z.of_nat dev) b firstLinkNum;
           Some (<[dev := b]> Devices, firstLinkNum))
        (Some (Devices, 1)) (seq 0 2).
End Main.

End DrniSetup.

(** ** The gateway vectors of the gateway selection tests *)

Module Gateway.

(** [std::bitset<4096>]: bit [cid] at index [cid], all false when
    constructed. *)
Definition bitset : Type := list bool.
Definition bitset_new : bitset := replicate 4096 false.

Record vectors := Vectors {
  tempGwEn0 : bitset;
  tempGwEn1 : bitset;
  tempGwPref0 : bitset;
  tempGwPref1 : bitset
}.

Definition declared : vectors := Vectors bitset_new bitset_new bitset_new bitset_new.

(** [for (int cid = 0; cid < 4096; cid++)] of [drniGatewaySelectionTest]
    and [drniCscdGatewaySelectionTest]. *)
Definition fill (v : vectors) : vectors :=
  foldl (λ v cid,
           let c := Z.of_nat cid in
           let tempGwPref0 := <[cid := negb (Z.land c 0x1 =? 0)]> (tempGwPref0 v) in
           let tempGwPref1 := <[cid := negb (Z.land c 0x2 =? 0)]> (tempGwPref1 v) in
           let tempGwEn0 := <[cid := Z.land c 0x4 =? 0]> (tempGwEn0 v) in
           let tempGwEn1 := <[cid := Z.land c 0x8 =? 0]> (tempGwEn1 v) in
           Vectors tempGwEn0 tempGwEn1 tempGwPref0 tempGwPref1)
        v (seq 0 4096).

(** The four bits of conversation ID [cid] in order: gateway enable of
    systems 0 and 1, gateway preference of systems 0 and 1. *)
Definition bits (v : vectors) (cid : nat) : option (bool * bool * bool * bool) :=
  e0 ← tempGwEn0 v !! cid;
  e1 ← tempGwEn1 v !! cid;
  p0 ← tempGwPref0 v !! cid;
  p1 ← tempGwPref1 v !! cid;
  Some (e0, e1, p0, p1).

(** Bits 2, 3, 0 and 1 of [cid], the first two negated. *)
Definition cid_bits (cid : nat) : bool * bool * bool * bool :=
  (negb (Z.testbit (Z.of_nat cid) 2), negb (Z.testbit (Z.of_nat cid) 3),
   Z.testbit (Z.of_nat cid) 0, Z.testbit (Z.of_nat cid) 1).

End Gateway.

(* ================================================================= *)
(** * Theorems *)

(** ** The driver's loop *)

Section DriverFacts.
Import Driver.

Lemma calls_record cs trace : calls record_call cs trace = trace ++ cs.
Proof.
  revert trace. induction cs as [|c cs IH]; intros trace; simpl.
  - by rewrite app_nil_r.
  - rewrite IH. unfold record_call. by rewrite <- app_assoc.
Qed.

Lemma loop_succ {W} (exec : call → W → W) n events start s :
  loop exec (S n) events start s = iteration exec events start (loop exec n events start s).
Proof. reflexivity. Qed.

Lemma loop_add {W} (exec : call → W → W) a b events start s :
  loop exec (a + b) events start s = loop exec a events start (loop exec b events start s).
Proof. unfold loop. apply Nat.iter_add. Qed.

Lemma loop_Time {W} (exec : call → W → W) n events start s :
  Time (loop exec n events start s) = Time s + Z.of_nat n.
Proof.
  induction n as [|n IH]; [simpl; lia|].
  rewrite loop_succ. unfold iteration. simpl Time. rewrite IH. lia.
Qed.

Lemma loop_relative {W} (exec : call → W → W) events :
  relative events → ∀ n start w,
  world (loop exec n events start (Sim start w))
  = world (loop exec n events 0 (Sim 0 w)).
Proof.
  intros Hrel n start w. induction n as [|n IH]; [done|].
  rewrite !loop_succ. unfold iteration. simpl world.
  rewrite IH, !loop_Time. simpl Time.
  rewrite (Hrel start). do 4 f_equal. lia.
Qed.

Lemma loop_start_test {W} (exec : call → W → W) events setup :
  relative events → ∀ n start w,
  world (loop exec n events start (start_test exec setup (Sim start w)))
  = world (loop exec n events 0 (start_test exec setup (Sim 0 w))).
Proof. intros Hrel n start w. unfold start_test. simpl. by apply loop_relative. Qed.

Lemma trajectory_lookup {W} (exec : call → W → W) events start :
  ∀ n t s, (t < n)%nat →
  trajectory exec n events start s !! t = Some (world (loop exec (S t) events start s)).
Proof.
  induction n as [|n IH]; intros t s Ht; [lia|].
  destruct t as [|t]; [done|].
  simpl trajectory. rewrite lookup_cons_ne_0 by done. simpl pred.
  rewrite IH by lia. f_equal. f_equal.
  unfold loop. by rewrite <- !Nat.iter_succ_r.
Qed.

Lemma foldl_commute {A B} (g : A → B → A) (h : A → A) (l : list B) :
  (∀ a b, g (h a) b = h (g a b)) → ∀ a, foldl g (h a) l = h (foldl g a l).
Proof.
  intros E. induction l as [|b l IH]; intros a; simpl; [done|]. by rewrite E, IH.
Qed.

(** A change of representation that commutes with every call commutes
    with the loop. *)
Lemma loop_commute {W} (exec : call → W → W) (h : W → W) events start :
  (∀ c w, exec c (h w) = h (exec c w)) →
  ∀ n T w,
  world (loop exec n events start (Sim T (h w)))
  = h (world (loop exec n events start (Sim T w))).
Proof.
  intros E n T w. induction n as [|n IH]; [done|].
  rewrite !loop_succ. unfold iteration. simpl world.
  rewrite IH, !loop_Time. simpl Time.
  unfold calls, run_all, transmit_all.
  rewrite !foldl_commute; [done|intros; by rewrite ?E..].
Qed.

(** Where the device phases leave the world alone, ticks without events
    leave it alone. *)
Lemma loop_quiet {W} (exec : call → W → W) events start :
  (∀ d w, exec (timerTick d) w = w) →
  (∀ d w, exec (run d true) w = w) →
  (∀ d w, exec (transmit d) w = w) →
  ∀ n s, (∀ i, (i < n)%nat → events start (Time s + Z.of_nat i) = []) →
  world (loop exec n events start s) = world s.
Proof.
  intros Htick Hrun Htx n s. induction n as [|n IH]; intros Hquiet; [done|].
  rewrite loop_succ. unfold iteration. simpl world.
  rewrite loop_Time, Hquiet by lia. simpl calls.
  assert (∀ l w, foldl (λ w dev, exec (transmit dev) w) w l = w) as Ht.
  { induction l as [|d l IHl]; intros w; simpl; [done|]. by rewrite Htx. }
  assert (∀ l w, foldl (λ w dev, exec (run dev true) (exec (timerTick dev) w)) w l = w) as Hr.
  { induction l as [|d l IHl]; intros w; simpl; [done|]. by rewrite Htick, Hrun. }
  unfold transmit_all, run_all. rewrite Ht, Hr. apply IH. intros i Hi. apply Hquiet. lia.
Qed.

Lemma trajectory_length {W} (exec : call → W → W) events start :
  ∀ n s, length (trajectory exec n events start s) = n.
Proof. induction n as [|n IH]; intros s; simpl; [done|by rewrite IH]. Qed.

Lemma at_time_relative Time start offset body :
  at_time Time start offset body = at_time (Time - start) 0 offset body.
Proof. unfold at_time. repeat case_decide; (done || lia). Qed.

Lemma app_relative (a a' b b' : list call) : a = a' → b = b' → a ++ b = a' ++ b'.
Proof. by intros -> ->. Qed.

Ltac relative_events :=
  intros start Time;
  repeat (apply app_relative; [apply at_time_relative|]);
  apply at_time_relative.

Lemma basicLagTest_relative : relative basicLagTest_events.
Proof. relative_events. Qed.

Lemma preferredAggregatorTest_relative : relative preferredAggregatorTest_events.
Proof. relative_events. Qed.

Lemma nonAggregatablePortTest_relative : relative nonAggregatablePortTest_events.
Proof. relative_events. Qed.

Lemma distributionTest_relative e : relative (distributionTest_events e).
Proof. relative_events. Qed.


(** C9: on every tick the driver first asks each Device, in the order of
    [Devices], for [timerTick()] and then [run(true)]; only when all
    devices have run does it call [transmit()] on each of them; and
    [SimLog::Time] goes up by exactly one per iteration, after these
    phases.  Stated on the trace of calls, for any schedule of events and
    in particular for [basicLagTest] and [distributionTest]. *)
Theorem driver_tick_order
    (events : Z → Z → list call) (start : Z) (s : @sim (list call)) (n : nat)
    (CVlanEthertype : Z) :
  iteration record_call events start s
  = Sim (Time s + 1)
        (world s ++ events start (Time s)
         ++ [timerTick 0; run 0 true; timerTick 1; run 1 true; timerTick 2; run 2 true;
             timerTick 3; run 3 true; timerTick 4; run 4 true; timerTick 5; run 5 true]
         ++ [transmit 0; transmit 1; transmit 2; transmit 3; transmit 4; transmit 5])
  ∧ Time (loop record_call n events start s) = Time s + Z.of_nat n
  ∧ Time (test record_call basicLagTest_setup basicLagTest_events s) = Time s + 1000
  ∧ Time (test record_call [] (distributionTest_events CVlanEthertype) s) = Time s + 1000.
Proof.
  split_and!.
  - unfold iteration. f_equal. rewrite calls_record.
    unfold run_all, transmit_all, record_call. simpl. by rewrite <- !app_assoc.
  - apply loop_Time.
  - unfold test. by rewrite loop_Time.
  - unfold test. by rewrite loop_Time.
Qed.

End DriverFacts.

(** ** The Link Aggregation machines *)

Section LacpFacts.
Import Driver Lacp.

(** The transitions taken by [mux_run] reach a state in which the Mux
    machine stays, whatever the port. *)
Lemma mux_run_stable p : mux_step (mux_run p) = mux_run p.
Proof.
  destruct p as [l e k a t pa [s|] [] [|ww] [|wt] n]; destruct pa as [[? ? ? ? [] ? ?]|];
    reflexivity.
Qed.


Lemma holds_spec traj lo hi obs :
  holds traj lo hi obs = true →
  ∀ t, (lo ≤ t < hi)%nat → ∃ w, traj !! t = Some w ∧ obs t w = true.
Proof.
  unfold holds. rewrite forallb_forall. intros H t Ht.
  specialize (H t). rewrite in_seq in H. specialize (H ltac:(lia)).
  destruct (traj !! t) as [w|]; [by exists w|done].
Qed.

Lemma same_calls {W} (e1 e2 : call → W → W) cs1 cs2 :
  Forall2 (λ c1 c2, ∀ w, e1 c1 w = e2 c2 w) cs1 cs2 →
  ∀ w, calls e1 cs1 w = calls e2 cs2 w.
Proof.
  unfold calls. induction 1 as [|c1 c2 cs1 cs2 Hc _ IH]; intros w; simpl; [done|].
  by rewrite Hc, IH.
Qed.

(** Two interpretations that agree on the device phases and on the
    calls of the schedules give the same loop. *)
Lemma loop_same {W} (e1 e2 : call → W → W) ev1 ev2 start :
  (∀ d w, e1 (timerTick d) w = e2 (timerTick d) w) →
  (∀ d w, e1 (run d true) w = e2 (run d true) w) →
  (∀ d w, e1 (transmit d) w = e2 (transmit d) w) →
  (∀ T, Forall2 (λ c1 c2, ∀ w, e1 c1 w = e2 c2 w) (ev1 start T) (ev2 start T)) →
  ∀ n s, loop e1 n ev1 start s = loop e2 n ev2 start s.
Proof.
  intros Ht Hr Hx He n s. induction n as [|n IH]; [done|].
  rewrite !loop_succ, IH. unfold iteration. f_equal.
  rewrite (same_calls e1 e2 _ _ (He _)).
  generalize (calls e2 (ev2 start (Time (loop e2 n ev2 start s)))
                (world (loop e2 n ev2 start s))).
  intros w. unfold transmit_all, run_all.
  assert (∀ l w, foldl (λ w dev, e1 (run dev true) (e1 (timerTick dev) w)) w l
                 = foldl (λ w dev, e2 (run dev true) (e2 (timerTick dev) w)) w l) as ->.
  { induction l as [|d l IHl]; intros w'; simpl; [done|]. by rewrite Ht, Hr, IHl. }
  generalize (foldl (λ w dev, e2 (run dev true) (e2 (timerTick dev) w)) w Devices).
  induction Devices as [|d l IHl]; intros w'; simpl; [done|]. by rewrite Hx, IHl.
Qed.

(** The state of a test does not depend on the time at which it begins
    nor on the value of [defaultActorKey]: it is found on the
    trajectory from time 0 with the keys as distances. *)
Lemma outcome_lookup k events events0 n t start :
  relative events0 →
  (∀ s T, Forall2 (λ c1 c2, ∀ w, exec k c1 w = exec 0 c2 w) (events s T) (events0 s T)) →
  (t < n)%nat →
  trajectory (exec 0) n events0 0 (start_test (exec 0) [] (Sim 0 fresh)) !! t
  = Some (outcome k events start t).
Proof.
  intros Hrel Hsame Ht. rewrite trajectory_lookup by done. f_equal.
  unfold outcome.
  rewrite (loop_same (exec k) (exec 0) events events0 start) by (done || apply Hsame).
  rewrite <- (loop_start_test (exec 0) events0 [] Hrel (S t) start fresh).
  reflexivity.
Qed.

Lemma outcome_holds k events events0 n lo hi obs start :
  relative events0 →
  (∀ s T, Forall2 (λ c1 c2, ∀ w, exec k c1 w = exec 0 c2 w) (events s T) (events0 s T)) →
  (hi ≤ n)%nat →
  holds (trajectory (exec 0) n events0 0 (start_test (exec 0) [] (Sim 0 fresh))) lo hi obs
  = true →
  ∀ t, (lo ≤ t < hi)%nat → obs t (outcome k events start t) = true.
Proof.
  intros Hrel Hsame Hn Hholds t Ht.
  destruct (holds_spec _ _ _ _ Hholds t Ht) as (w & Hw & Hobs).
  rewrite (outcome_lookup k events events0 n t start) in Hw by (done || lia).
  injection Hw as Hw. by rewrite Hw.
Qed.

Ltac same_events :=
  intros s T;
  repeat (apply Forall2_app;
          [unfold at_time; case_decide; [|by constructor]|]);
  try (unfold at_time; case_decide; [|by constructor]);
  unfold disconnect_all, Devices, brgCnt, endStnCnt, brgMacCnt; simpl;
  repeat (constructor;
          [intros w; cbv beta iota delta [exec];
           rewrite ?Z.add_simpl_l, ?Z.sub_diag; reflexivity|]);
  by constructor.

Lemma nonAggregatablePortTest_same k :
  ∀ s T, Forall2 (λ c1 c2, ∀ w, exec k c1 w = exec 0 c2 w)
           (nonAggregatablePortTest_events s T) (nonAggregatablePortTest_events s T).
Proof. same_events. Qed.



(** *** Selection keeps the LagIds apart *)

Lemma lagId_set_selected j s q : lagId j (set_selected s q) = lagId j q.
Proof. unfold set_selected. by case_decide. Qed.

Lemma selected_set_selected s q : selected (set_selected s q) = s.
Proof. unfold set_selected. by case_decide. Qed.

Lemma aggregation_set_selected s q : aggregation (set_selected s q) = aggregation q.
Proof. unfold set_selected. by case_decide. Qed.

Lemma select_port_cases aggs ps i :
  select_port aggs ps i = alter (set_selected None) i ps ∨
  ∃ id t, lagIdAt ps i = Some id ∧ select_port aggs ps i = imap (seat id t) ps.
Proof.
  unfold select_port. destruct (lagIdAt ps i) as [id|]; [|by left].
  destruct (target aggs ps id) as [t|]; [right; by exists id, t|by left].
Qed.

Lemma select_port_length aggs ps i : length (select_port aggs ps i) = length ps.
Proof.
  destruct (select_port_cases aggs ps i) as [->|(id & t & _ & ->)];
    [apply length_alter|apply length_imap].
Qed.

(** When Selection has dealt with port [n], the ports up to [n] are
    among their own. *)
Lemma select_port_among_its_own aggs ps n :
  (∀ i, (i < n)%nat → among_its_own ps i) →
  ∀ i, (i < S n)%nat → among_its_own (select_port aggs ps n) i.
Proof.
  intros H i Hi p' a Hp' Hsel.
  destruct (select_port_cases aggs ps n) as [E|(id & t & Hid & E)]; rewrite E in *; clear E.
  - destruct (decide (i = n)) as [->|Hne].
    { rewrite list_lookup_alter_eq in Hp'. destruct (ps !! n); [|done].
      injection Hp' as <-. by rewrite selected_set_selected in Hsel. }
    rewrite list_lookup_alter_ne in Hp' by done.
    destruct (H i ltac:(lia) p' a Hp' Hsel) as [Hsome Hall]. split; [done|].
    intros j q' Hq' Hselq. destruct (decide (j = n)) as [->|Hnj].
    { rewrite list_lookup_alter_eq in Hq'. destruct (ps !! n); [|done].
      injection Hq' as <-. by rewrite selected_set_selected in Hselq. }
    rewrite list_lookup_alter_ne in Hq' by done. by apply Hall.
  - rewrite list_lookup_imap in Hp'. destruct (ps !! i) as [p|] eqn:Ep; [|done].
    injection Hp' as <-. unfold seat in Hsel |- *.
    destruct (decide (lagId i p = Some id)) as [Ei|Ni].
    + rewrite selected_set_selected in Hsel. injection Hsel as <-.
      rewrite lagId_set_selected, Ei. split; [by eexists|].
      intros j q' Hq' Hselq. rewrite list_lookup_imap in Hq'.
      destruct (ps !! j) as [q|]; [|done]. injection Hq' as <-.
      destruct (decide (lagId j q = Some id)) as [Ej|Nj];
        [by rewrite lagId_set_selected|].
      destruct (decide (selected q = Some t)); [|done].
      by rewrite selected_set_selected in Hselq.
    + destruct (decide (selected p = Some t)) as [Et|Nt];
        [by rewrite selected_set_selected in Hsel|].
      assert (i ≠ n) as Hne.
      { intros ->. unfold lagIdAt in Hid. by rewrite Ep in Hid. }
      destruct (H i ltac:(lia) p a Ep Hsel) as [Hsome Hall]. split; [done|].
      intros j q' Hq' Hselq. rewrite list_lookup_imap in Hq'.
      destruct (ps !! j) as [q|] eqn:Eq; [|done]. injection Hq' as <-.
      destruct (decide (lagId j q = Some id)) as [Ej|Nj].
      { rewrite selected_set_selected in Hselq. congruence. }
      destruct (decide (selected q = Some t)) as [Eq'|Nq];
        [by rewrite selected_set_selected in Hselq|].
      by apply (Hall j q).
Qed.

Lemma selection_among_its_own aggs ps i : among_its_own (selection aggs ps) i.
Proof.
  unfold selection.
  assert (∀ n, length (foldl (select_port aggs) ps (seq 0 n)) = length ps
               ∧ ∀ i, (i < n)%nat →
                   among_its_own (foldl (select_port aggs) ps (seq 0 n)) i) as H.
  { induction n as [|n [IHl IH]]; [split; [done|lia]|].
    rewrite seq_S, foldl_snoc. simpl. split.
    - by rewrite select_port_length.
    - by apply select_port_among_its_own. }
  destruct (H (length ps)) as [Hl Hall].
  destruct (decide (i < length ps)%nat) as [Hi|Hi]; [by apply Hall|].
  intros p a Hp. apply lookup_lt_Some in Hp. lia.
Qed.

Lemma selection_solitary aggs ps : solitary (selection aggs ps).
Proof.
  intros i j p q a Hp Hq Hne Hagg Hsel Hselq.
  destruct (selection_among_its_own aggs ps i p a Hp Hsel) as [Hsome Hall].
  specialize (Hall j q Hq Hselq). unfold lagId, individual in Hsome, Hall.
  rewrite Hagg in Hsome, Hall. simpl in Hsome, Hall.
  destruct (enabled p); [|by destruct Hsome]. destruct (enabled q); [|done].
  injection Hall as _ _ Hport. destruct (_ || _); congruence.
Qed.

Lemma solitary_fmap (f : AggPort → AggPort) ps :
  (∀ p, selected (f p) = selected p) → (∀ p, aggregation (f p) = aggregation p) →
  solitary ps → solitary (f <$> ps).
Proof.
  intros Hs Ha H i j p' q' a Hp Hq Hne Hagg Hsel.
  apply list_lookup_fmap_Some in Hp as (p & -> & Hp).
  apply list_lookup_fmap_Some in Hq as (q & -> & Hq).
  rewrite Hs. rewrite Ha in Hagg. rewrite Hs in Hsel. by apply (H i j p q).
Qed.

Lemma device_run_solitary d w : solitary_in (device_run d w) d.
Proof.
  intros dev. unfold device_run. simpl. rewrite list_lookup_alter_eq.
  destruct (devices w !! d); [|done]. intros [= <-]. apply selection_solitary.
Qed.

Lemma device_run_other d d' w :
  d ≠ d' → solitary_in w d → solitary_in (device_run d' w) d.
Proof.
  intros Hne H dev. unfold device_run. simpl. rewrite list_lookup_alter_ne by done. apply H.
Qed.

Lemma device_timerTick_solitary d d' w :
  solitary_in w d → solitary_in (device_timerTick d' w) d.
Proof.
  intros H dev. unfold device_timerTick. simpl.
  destruct (decide (d' = d)) as [->|Hne]; [|rewrite list_lookup_alter_ne by done; apply H].
  rewrite list_lookup_alter_eq. destruct (devices w !! d) as [dev0|] eqn:E; [|done].
  intros [= <-]. simpl. apply solitary_fmap; [done|done|by apply H].
Qed.

Lemma device_transmit_solitary d d' w :
  solitary_in w d → solitary_in (device_transmit d' w) d.
Proof.
  intros H dev. unfold device_transmit.
  destruct (devices w !! d') as [dev0|] eqn:E; [|apply H]. simpl.
  destruct (decide (d' = d)) as [->|Hne]; [|rewrite list_lookup_insert_ne by done; apply H].
  intros Hd. apply list_lookup_insert_Some in Hd as [(_ & <- & _)|(? & _)]; [|done].
  simpl. apply solitary_fmap; [done|done|by apply H].
Qed.

(** Each Device has run in the iteration, and what comes after its run
    leaves the bindings of its ports alone. *)
Lemma iteration_solitary k events start s d :
  d ∈ Devices → solitary_in (world (iteration (exec k) events start s)) d.
Proof.
  intros Hd. unfold iteration. simpl world.
  generalize (calls (exec k) (events start (Time s)) (world s)). intros w.
  assert (∀ l w, solitary_in w d →
                 solitary_in (foldl (λ w dev, exec k (transmit dev) w) w l) d) as Htx.
  { induction l as [|x l IHl]; intros w' H; simpl; [done|].
    apply IHl. by apply device_transmit_solitary. }
  apply Htx. unfold run_all.
  assert (∀ l w, NoDup l → d ∈ l ∨ solitary_in w d →
                 solitary_in
                   (foldl (λ w dev, exec k (run dev true) (exec k (timerTick dev) w)) w l) d)
    as Hrun.
  { induction l as [|x l IHl]; intros w' Hnd H; simpl.
    { destruct H as [H|H]; [by apply elem_of_nil in H|done]. }
    apply NoDup_cons in Hnd as [Hx Hnd]. apply IHl; [done|].
    destruct (decide (x = d)) as [->|Hne]; [right; apply device_run_solitary|].
    destruct H as [H|H].
    - apply elem_of_cons in H as [->|H]; [done|by left].
    - right. apply device_run_other; [done|]. by apply device_timerTick_solitary. }
  apply Hrun; [apply NoDup_seq|by left].
Qed.

Lemma trajectory_succ {W} (exec : call → W → W) n events start s :
  trajectory exec (S n) events start s
  = world (iteration exec events start s)
    :: trajectory exec n events start (iteration exec events start s).
Proof. reflexivity. Qed.

Lemma trajectory_solitary k events start n s w d :
  w ∈ trajectory (exec k) n events start s → d ∈ Devices → solitary_in w d.
Proof.
  revert s. induction n as [|n IH]; intros s Hw Hd.
  { by apply elem_of_nil in Hw. }
  rewrite trajectory_succ in Hw. apply elem_of_cons in Hw as [Hw|Hw].
  - rewrite Hw. by apply iteration_solitary.
  - by apply (IH _ Hw).
Qed.

Ltac by_check start Hrel Hsame H :=
  let Ht := fresh "Ht" in
  let E := fresh "E" in
  intros Ht;
  pose proof (λ Hle, outcome_holds _ _ _ _ _ _ _ start Hrel Hsame Hle H _ Ht) as E;
  cbv beta in E; apply bool_decide_eq_true_1 in E; [exact E|lia].

(** C8: an AggPort whose aggregation bit is clear never shares an
    Aggregator: at the end of every iteration of every test, from any
    state of the network, no other AggPort of its Device is bound to the
    Aggregator it is bound to.  In [nonAggregatablePortTest] on the
    Devices of [main], with the bit cleared on AggPorts 1 and 4 of
    Bridges 0 and 1: when the three links of +100 have come up each is a
    LAG of its own; when the five links have come up (from +313 until
    the next event at +400) the AggPorts of Bridge 0 are distributing on
    four Aggregators, AggPorts 2 and 5 sharing Aggregator 2 and the
    others alone, and on Bridge 1 their partners, AggPorts 3 and 5,
    share Aggregator 3 and the others are alone. *)
Theorem nonAggregatable_lags (defaultActorKey start : Z) :
  (∀ events s n w d dev i j p q a,
     w ∈ trajectory (exec defaultActorKey) n events start s → d ∈ Devices →
     devices w !! d = Some dev → ports dev !! i = Some p → ports dev !! j = Some q →
     i ≠ j → aggregation p = false → selected p = Some a → selected q ≠ Some a)
  ∧ ∀ t,
    ((1 ≤ t < 500)%nat →
       (aggregation <$> port_at (outcome defaultActorKey nonAggregatablePortTest_events start t)
                          (pMacs 0 1) = Some false)
       ∧ (aggregation <$> port_at (outcome defaultActorKey nonAggregatablePortTest_events start t)
                            (pMacs 0 4) = Some false)
       ∧ (aggregation <$> port_at (outcome defaultActorKey nonAggregatablePortTest_events start t)
                            (pMacs 1 1) = Some false)
       ∧ (aggregation <$> port_at (outcome defaultActorKey nonAggregatablePortTest_events start t)
                            (pMacs 1 4) = Some false))
    ∧ ((113 ≤ t < 200)%nat →
       seats (outcome defaultActorKey nonAggregatablePortTest_events start t) 0
       = [None; Some 1; Some 2; Some 3; None; None; None; None]%nat
       ∧ active (outcome defaultActorKey nonAggregatablePortTest_events start t) 0
         = [1; 2; 3]%nat
       ∧ seats (outcome defaultActorKey nonAggregatablePortTest_events start t) 1
         = [None; Some 1; Some 2; Some 3; None; None; None; None]%nat
       ∧ active (outcome defaultActorKey nonAggregatablePortTest_events start t) 1
         = [1; 2; 3]%nat)
    ∧ ((313 ≤ t < 400)%nat →
       seats (outcome defaultActorKey nonAggregatablePortTest_events start t) 0
       = [None; Some 1; Some 2; Some 3; Some 4; Some 2; None; None]%nat
       ∧ active (outcome defaultActorKey nonAggregatablePortTest_events start t) 0
         = [1; 2; 3; 4; 5]%nat
       ∧ seats (outcome defaultActorKey nonAggregatablePortTest_events start t) 1
         = [Some 0; Some 1; Some 2; Some 3; None; Some 3; None; None]%nat
       ∧ active (outcome defaultActorKey nonAggregatablePortTest_events start t) 1
         = [0; 1; 2; 3; 5]%nat).
Proof.
  split.
  { intros events s n w d dev i j p q a Hw Hd Hdev.
    by apply (trajectory_solitary _ _ _ _ _ _ _ Hw Hd dev Hdev). }
  intros t.
  assert ((λ traj,
      holds traj 1 500 (λ _ w, bool_decide
        ((aggregation <$> port_at w (pMacs 0 1) = Some false)
         ∧ (aggregation <$> port_at w (pMacs 0 4) = Some false)
         ∧ (aggregation <$> port_at w (pMacs 1 1) = Some false)
         ∧ (aggregation <$> port_at w (pMacs 1 4) = Some false)))
      && (holds traj 113 200 (λ _ w, bool_decide
        (seats w 0 = [None; Some 1; Some 2; Some 3; None; None; None; None]%nat
         ∧ active w 0 = [1; 2; 3]%nat
         ∧ seats w 1 = [None; Some 1; Some 2; Some 3; None; None; None; None]%nat
         ∧ active w 1 = [1; 2; 3]%nat))
      && holds traj 313 400 (λ _ w, bool_decide
        (seats w 0 = [None; Some 1; Some 2; Some 3; Some 4; Some 2; None; None]%nat
         ∧ active w 0 = [1; 2; 3; 4; 5]%nat
         ∧ seats w 1 = [Some 0; Some 1; Some 2; Some 3; None; Some 3; None; None]%nat
         ∧ active w 1 = [0; 1; 2; 3; 5]%nat))))
    (trajectory (exec 0) 500 nonAggregatablePortTest_events 0
       (start_test (exec 0) [] (Sim 0 fresh))) = true) as Hc
    by (vm_compute; reflexivity).
  cbv beta in Hc.
  apply andb_prop in Hc as [H1 Hc]. apply andb_prop in Hc as [H2 H3].
  pose proof nonAggregatablePortTest_relative as Hrel.
  pose proof (nonAggregatablePortTest_same defaultActorKey) as Hsame.
  split_and!.
  - by_check start Hrel Hsame H1.
  - by_check start Hrel Hsame H2.
  - by_check start Hrel Hsame H3.
Qed.


End LacpFacts.

(** ** Bit 8 of the keys of main's Distributed Relay Aggregators *)

Section DrniFacts.
Import Drni.
Context (defaultActorKey defaultDrniKey : Z).

Lemma aggKey_bit8 dev idx :
  (dev < 2)%nat → (idx < 255)%nat →
  Z.testbit (aggKey defaultActorKey dev idx) 8 = bool_decide (dev = 1%nat).
Proof.
  intros Hdev Hidx. unfold aggKey, ushort.
  rewrite Z.mod_pow2_bits_low by lia.
  rewrite !Z.lor_spec, Z.land_spec.
  assert (Z.testbit (Z.of_nat idx + 1) 8 = false) as ->.
  { apply Z.bits_above_log2; [lia|]. apply Z.log2_lt_pow2; lia. }
  replace (Z.testbit 0xf000 8) with false by reflexivity.
  rewrite andb_false_r, orb_false_r.
  destruct dev as [|[|dev]]; [reflexivity|reflexivity|lia].
Qed.

End DrniFacts.

(** ** compareLists *)

Section CompareListsFacts.
Import CompareLists.

Example CompareListsTest_differences :
  difference <$> CompareListsTest
  = [ []; [1; 2; 3; 10]; [1; 2; 3; 11]; [1; 3; 5; 11]; [2; 3; 5; 11] ].
Proof. vm_compute. reflexivity. Qed.

Lemma count_app l1 l2 v : count (l1 ++ l2) v = (count l1 v + count l2 v)%nat.
Proof. apply count_occ_app. Qed.

Lemma count_cons a l v :
  count (a :: l) v = ((if decide (a = v) then 1 else 0) + count l v)%nat.
Proof.
  unfold count. simpl. destruct (Z.eq_dec a v), (decide (a = v)); done.
Qed.

Lemma count_perm l1 l2 : l1 ≡ₚ l2 ↔ ∀ v, count l1 v = count l2 v.
Proof. apply (Permutation_count_occ Z.eq_dec). Qed.

Lemma count_pos_elem_of l v : (0 < count l v)%nat ↔ v ∈ l.
Proof. rewrite list_elem_of_In. symmetry. apply count_occ_In. Qed.

Lemma count_zero_above a l v :
  StronglySorted Z.le (a :: l) → v < a → count (a :: l) v = 0%nat.
Proof.
  intros Hs Hlt. apply count_occ_not_In. rewrite <- list_elem_of_In.
  intros Hin. apply StronglySorted_inv in Hs as [_ Hall].
  apply elem_of_cons in Hin as [->|Hin]; [lia|].
  rewrite Forall_forall in Hall. specialize (Hall _ Hin). lia.
Qed.

Lemma sort_sorted l : StronglySorted Z.le (sort l).
Proof. apply (StronglySorted_merge_sort Z.le). Qed.

Lemma sort_perm l : sort l ≡ₚ l.
Proof. apply (merge_sort_Permutation Z.le). Qed.

Lemma merge_sorted a b :
  Sorted Z.le a → Sorted Z.le b → Sorted Z.le (merge a b).
Proof. apply (Sorted_list_merge Z.le). Qed.

Lemma merge_perm a b : merge a b ≡ₚ a ++ b.
Proof. apply (merge_Permutation Z.le). Qed.

Lemma compare_loop_nil_l lb d : compare_loop [] lb d = (d, [], lb).
Proof. by destruct lb. Qed.

Lemma compare_loop_nil_r la d : compare_loop la [] d = (d, la, []).
Proof. by destruct la. Qed.

Lemma compare_loop_cons a la b lb d :
  compare_loop (a :: la) (b :: lb) d =
    if decide (a = b) then compare_loop la lb d
    else if decide (a < b) then compare_loop la (b :: lb) (d ++ [a])
    else compare_loop (a :: la) lb (d ++ [b]).
Proof. reflexivity. Qed.

(** What is left when the loop stops: the values pushed on [difference],
    followed by the unconsumed tail of one list, form a sorted list that
    holds each value as often as the two inputs disagree on it. *)
Lemma compare_loop_spec la : ∀ lb d,
  StronglySorted Z.le la → StronglySorted Z.le lb →
  ∃ e ra rb,
    compare_loop la lb d = (d ++ e, ra, rb) ∧
    (ra = [] ∨ rb = []) ∧
    StronglySorted Z.le (e ++ ra ++ rb) ∧
    ∀ v, Z.of_nat (count (e ++ ra ++ rb) v)
         = Z.abs (Z.of_nat (count la v) - Z.of_nat (count lb v)).
Proof.
  induction la as [|a la IHa]; intros lb.
  { intros d _ Hb. exists [], [], lb. rewrite compare_loop_nil_l, app_nil_r.
    repeat split; auto. intros v. unfold count. simpl. lia. }
  induction lb as [|b lb IHb]; intros d Ha Hb.
  { exists [], (a :: la), []. rewrite compare_loop_nil_r, !app_nil_r.
    repeat split; auto. intros v. unfold count. simpl.
    destruct (Z.eq_dec a v); lia. }
  rewrite compare_loop_cons.
  pose proof (StronglySorted_inv Ha) as [Ha' _].
  pose proof (StronglySorted_inv Hb) as [Hb' _].
  destruct (decide (a = b)) as [->|Hne].
  - destruct (IHa lb d Ha' Hb') as (e & ra & rb & -> & Hnil & Hs & Hc).
    exists e, ra, rb. repeat split; auto.
    intros v. rewrite Hc, !(count_cons b). lia.
  - destruct (decide (a < b)) as [Hlt|Hge].
    + destruct (IHa (b :: lb) (d ++ [a]) Ha' Hb) as (e & ra & rb & -> & Hnil & Hs & Hc).
      exists (a :: e), ra, rb. rewrite <- app_assoc. repeat split; auto.
      * simpl. apply SSorted_cons; [done|].
        rewrite Forall_forall. intros x Hx.
        apply count_pos_elem_of in Hx. specialize (Hc x).
        assert (x ∈ la ∨ x ∈ b :: lb) as [Hin|Hin].
        { rewrite <- !count_pos_elem_of. lia. }
        -- apply StronglySorted_inv in Ha as [_ Hall].
           rewrite Forall_forall in Hall. by apply Hall.
        -- apply StronglySorted_inv in Hb as [_ Hall].
           rewrite Forall_forall in Hall.
           apply elem_of_cons in Hin as [->|Hin]; [lia|].
           specialize (Hall _ Hin). lia.
      * intros v. specialize (Hc v). simpl app.
        rewrite !(count_cons a). destruct (decide (a = v)) as [<-|]; [|lia].
        rewrite (count_zero_above b lb a Hb Hlt) in *. lia.
    + assert (b < a) as Hlt by lia.
      destruct (IHb (d ++ [b]) Ha Hb') as (e & ra & rb & -> & Hnil & Hs & Hc).
      exists (b :: e), ra, rb. rewrite <- app_assoc. repeat split; auto.
      * simpl. apply SSorted_cons; [done|].
        rewrite Forall_forall. intros x Hx.
        apply count_pos_elem_of in Hx. specialize (Hc x).
        assert (x ∈ a :: la ∨ x ∈ lb) as [Hin|Hin].
        { rewrite <- !count_pos_elem_of. lia. }
        -- apply StronglySorted_inv in Ha as [_ Hall].
           rewrite Forall_forall in Hall.
           apply elem_of_cons in Hin as [->|Hin]; [lia|].
           specialize (Hall _ Hin). lia.
        -- apply StronglySorted_inv in Hb as [_ Hall].
           rewrite Forall_forall in Hall. by apply Hall.
      * intros v. specialize (Hc v). simpl app.
        rewrite !(count_cons b). destruct (decide (b = v)) as [<-|]; [|lia].
        rewrite (count_zero_above a la b Ha Hlt) in *. lia.
Qed.

Lemma compareLists_sorted_counts A B :
  StronglySorted Z.le (compareLists A B) ∧
  ∀ v, Z.of_nat (count (compareLists A B) v)
       = Z.abs (Z.of_nat (count A v) - Z.of_nat (count B v)).
Proof.
  unfold compareLists.
  destruct (compare_loop_spec (sort A) (sort B) [] (sort_sorted A) (sort_sorted B))
    as (e & ra & rb & -> & Hnil & Hs & Hc).
  simpl app.
  assert (merge (merge e ra) rb ≡ₚ e ++ ra ++ rb) as Hp.
  { rewrite !merge_perm. by rewrite <- app_assoc. }
  assert (Sorted Z.le e ∧ Sorted Z.le ra ∧ Sorted Z.le rb) as (He & Hra & Hrb).
  { pose proof (StronglySorted_app_1_l _ _ _ Hs) as He.
    pose proof (StronglySorted_app_1_r _ _ _ Hs) as Hr.
    pose proof (StronglySorted_app_1_l _ _ _ Hr) as Hra.
    pose proof (StronglySorted_app_1_r _ _ _ Hr) as Hrb.
    auto using StronglySorted_Sorted. }
  split.
  - apply Sorted_StronglySorted; [apply _|]. by repeat apply merge_sorted.
  - intros v. rewrite (proj1 (count_perm _ _) Hp v), Hc.
    by rewrite (proj1 (count_perm _ _) (sort_perm A) v),
               (proj1 (count_perm _ _) (sort_perm B) v).
Qed.

Lemma count_all_zero l : (∀ v, count l v = 0%nat) → l = [].
Proof.
  destruct l as [|x l]; [done|]. intros H. specialize (H x).
  rewrite count_cons in H. by destruct (decide (x = x)).
Qed.

(** C10: [compareLists A B] is the multiset symmetric difference of [A] and
    [B] in non-decreasing order: every value [v] occurs in it
    |count_A(v) - count_B(v)| times; it is empty exactly when [A] and [B]
    are equal as multisets; it does not depend on the order of the two
    arguments; and the caller's [listA] and [listB] are what they were
    before the call. *)
Theorem compareLists_symmetric_difference (A B old : list Z) :
  Sorted Z.le (compareLists A B) ∧
  (∀ v, Z.of_nat (count (compareLists A B) v)
        = Z.abs (Z.of_nat (count A v) - Z.of_nat (count B v))) ∧
  (compareLists A B = [] ↔ A ≡ₚ B) ∧
  compareLists A B = compareLists B A ∧
  listA (call_compareLists (Frame A B old)) = A ∧
  listB (call_compareLists (Frame A B old)) = B.
Proof.
  destruct (compareLists_sorted_counts A B) as [Hs Hc].
  destruct (compareLists_sorted_counts B A) as [Hs' Hc'].
  split_and!; [by apply StronglySorted_Sorted | done | | | done | done].
  - rewrite count_perm. split.
    + intros HD v. specialize (Hc v). rewrite HD in Hc. unfold count in Hc at 1.
      simpl in Hc. lia.
    + intros Heq. apply count_all_zero. intros v.
      specialize (Hc v). rewrite (Heq v) in Hc. lia.
  - apply (StronglySorted_unique Z.le); [done..|].
    apply count_perm. intros v. specialize (Hc v). specialize (Hc' v). lia.
Qed.

End CompareListsFacts.

(** ** compareLists: further properties *)

Section CompareListsMore.
Import CompareLists.

Lemma compareLists_unique A B D :
  StronglySorted Z.le D →
  (∀ v, Z.of_nat (count D v) = Z.abs (Z.of_nat (count A v) - Z.of_nat (count B v))) →
  compareLists A B = D.
Proof.
  intros HD Hc. destruct (compareLists_sorted_counts A B) as [Hs Hc'].
  apply (StronglySorted_unique Z.le); [done..|].
  apply count_perm. intros v. specialize (Hc v). specialize (Hc' v). lia.
Qed.

(** X1: the result depends on the two arguments as multisets only: the lists
    "should already be sorted", and nothing changes when they are not. *)
Theorem compareLists_permutation (A A' B B' : list Z) :
  A ≡ₚ A' → B ≡ₚ B' → compareLists A B = compareLists A' B'.
Proof.
  intros HA HB. destruct (compareLists_sorted_counts A' B') as [Hs Hc].
  apply compareLists_unique; [done|]. intros v.
  by rewrite Hc, (proj1 (count_perm _ _) HA v), (proj1 (count_perm _ _) HB v).
Qed.

Lemma compareLists_permutation_witness :
  compareLists [3; 1; 2] [2; 5] = compareLists [1; 2; 3] [5; 2].
Proof.
  apply (compareLists_permutation [3; 1; 2] [1; 2; 3] [2; 5] [5; 2]).
  - apply (Permutation_cons_append [1; 2] 3).
  - apply perm_swap.
Defined.

(** X2: when the loop ends, [difference], [listA] and [listB] are sorted, one
    of [listA] and [listB] is empty and nothing in [difference] is above
    what is left of them: both calls of [merge] get sorted lists, and
    the result is [difference] followed by the two remainders. *)
Theorem compareLists_merge_sorted (A B : list Z) :
  ∃ d ra rb,
    compare_loop (sort A) (sort B) [] = (d, ra, rb) ∧
    (ra = [] ∨ rb = []) ∧
    Sorted Z.le d ∧ Sorted Z.le ra ∧ Sorted Z.le rb ∧ Sorted Z.le (merge d ra) ∧
    (∀ x y, x ∈ d → y ∈ ra ++ rb → x ≤ y) ∧
    compareLists A B = d ++ ra ++ rb.
Proof.
  destruct (compare_loop_spec (sort A) (sort B) [] (sort_sorted A) (sort_sorted B))
    as (e & ra & rb & He & Hnil & Hs & Hc).
  exists e, ra, rb. simpl in He.
  pose proof (StronglySorted_app_1_l _ _ _ Hs) as Se.
  pose proof (StronglySorted_app_1_r _ _ _ Hs) as Sr.
  pose proof (StronglySorted_app_1_l _ _ _ Sr) as Sra.
  pose proof (StronglySorted_app_1_r _ _ _ Sr) as Srb.
  split_and!; auto using StronglySorted_Sorted.
  - apply merge_sorted; by apply StronglySorted_Sorted.
  - intros x y Hx Hy. by apply (StronglySorted_app_1_elem_of _ _ _ _ _ Hs).
  - apply compareLists_unique; [done|]. intros v. rewrite Hc.
    by rewrite (proj1 (count_perm _ _) (sort_perm A) v),
               (proj1 (count_perm _ _) (sort_perm B) v).
Qed.

(** Every pass of the loop that finds equal fronts drops one element of
    each list and every other pass moves one element to [difference]. *)
Lemma compare_loop_length la : ∀ lb d,
  ∃ m : nat,
    (m ≤ length la)%nat ∧ (m ≤ length lb)%nat ∧
    (length (compare_loop la lb d).1.1 + length (compare_loop la lb d).1.2
     + length (compare_loop la lb d).2 + 2 * m
     = length d + length la + length lb)%nat.
Proof.
  induction la as [|a la IHa]; intros lb.
  { intros d. exists 0%nat. rewrite compare_loop_nil_l. simpl. lia. }
  induction lb as [|b lb IHb]; intros d.
  { exists 0%nat. rewrite compare_loop_nil_r. simpl. lia. }
  rewrite compare_loop_cons.
  destruct (decide (a = b)) as [->|Hne].
  - destruct (IHa lb d) as (m & H1 & H2 & H3). exists (S m). simpl. lia.
  - destruct (decide (a < b)).
    + destruct (IHa (b :: lb) (d ++ [a])) as (m & H1 & H2 & H3).
      exists m. rewrite length_app in H3. simpl in *. lia.
    + destruct (IHb (d ++ [b])) as (m & H1 & H2 & H3).
      exists m. rewrite length_app in H3. simpl in *. lia.
Qed.

(** X3: the result is shorter than the two lists together by twice the number
    of matched pairs: its length has the parity of [length A + length B]
    and lies between their difference and their sum. *)
Theorem compareLists_length (A B : list Z) :
  ∃ m : nat,
    (m ≤ length A)%nat ∧ (m ≤ length B)%nat ∧
    (length (compareLists A B) + 2 * m = length A + length B)%nat.
Proof.
  destruct (compare_loop_length (sort A) (sort B) []) as (m & H1 & H2 & H3).
  pose proof (Permutation_length (sort_perm A)) as LA.
  pose proof (Permutation_length (sort_perm B)) as LB.
  exists m. rewrite LA in H1, H3. rewrite LB in H2, H3.
  split_and!; [done|done|].
  unfold compareLists.
  destruct (compare_loop (sort A) (sort B) []) as [[d ra] rb]. simpl in H3.
  pose proof (Permutation_length (merge_perm (merge d ra) rb)) as L1.
  pose proof (Permutation_length (merge_perm d ra)) as L2.
  rewrite length_app in L1, L2. lia.
Qed.

(** X4: empty and equal arguments: against an empty list the result is the
    other list, sorted; a list compared with itself, or with any
    rearrangement of itself, gives the empty list. *)
Theorem compareLists_empty (A : list Z) :
  compareLists A [] = sort A ∧ compareLists [] A = sort A ∧
  compareLists A A = [] ∧ compareLists A (reverse A) = [].
Proof.
  assert (∀ v, count (sort A) v = count A v) as Hsort.
  { intros v. apply count_perm, sort_perm. }
  split_and!.
  - apply compareLists_unique; [apply sort_sorted|].
    intros v. rewrite Hsort. unfold count at 3. simpl. lia.
  - apply compareLists_unique; [apply sort_sorted|].
    intros v. rewrite Hsort. unfold count at 2. simpl. lia.
  - apply compareLists_unique; [constructor|]. intros v. unfold count at 1. simpl. lia.
  - apply compareLists_unique; [constructor|]. intros v.
    rewrite (proj1 (count_perm _ _) (reverse_Permutation A) v).
    unfold count at 1. simpl. lia.
Qed.

Lemma count_zero_not_elem_of l v : v ∉ l → count l v = 0%nat.
Proof. intros H. apply count_occ_not_In. by rewrite <- list_elem_of_In. Qed.

(** X5: two lists without a common value: nothing is matched and the result
    is all of both lists, sorted. *)
Theorem compareLists_disjoint (A B : list Z) :
  (∀ x, x ∈ A → x ∉ B) → compareLists A B = sort (A ++ B).
Proof.
  intros Hdisj. apply compareLists_unique; [apply sort_sorted|].
  intros v. rewrite (proj1 (count_perm _ _) (sort_perm (A ++ B)) v), count_app.
  destruct (decide (v ∈ A)) as [HA|HA].
  - rewrite (count_zero_not_elem_of B v) by auto. lia.
  - rewrite (count_zero_not_elem_of A v) by auto. lia.
Qed.

Lemma compareLists_disjoint_witness :
  compareLists [4; 1] [3; 2] = sort ([4; 1] ++ [3; 2]).
Proof.
  apply (compareLists_disjoint [4; 1] [3; 2]).
  intros x Hx HB. rewrite !elem_of_cons, elem_of_nil in Hx, HB. lia.
Defined.

(** X6: a value is reported exactly when the two lists hold it a different
    number of times; every reported value is in one of the lists. *)
Theorem compareLists_elem_of (A B : list Z) (v : Z) :
  (v ∈ compareLists A B ↔ count A v ≠ count B v) ∧
  (v ∈ compareLists A B → v ∈ A ∨ v ∈ B).
Proof.
  destruct (compareLists_sorted_counts A B) as [_ Hc]. specialize (Hc v).
  assert (v ∈ compareLists A B ↔ count A v ≠ count B v) as Hiff.
  { rewrite <- count_pos_elem_of. lia. }
  split; [done|]. intros Hin. apply Hiff in Hin.
  rewrite <- !count_pos_elem_of. lia.
Qed.

Lemma count_NoDup l : NoDup l ↔ ∀ v, (count l v ≤ 1)%nat.
Proof. rewrite NoDup_ListNoDup. apply (NoDup_count_occ Z.eq_dec). Qed.

(** X7: on lists without repetition [compareLists] is the symmetric difference
    of sets: the result has no repetition, and comparing it with [B]
    again gives [A] back, sorted. *)
Theorem compareLists_NoDup (A B : list Z) :
  NoDup A → NoDup B →
  NoDup (compareLists A B) ∧ compareLists (compareLists A B) B = sort A.
Proof.
  intros HA HB. rewrite count_NoDup in HA, HB.
  destruct (compareLists_sorted_counts A B) as [_ Hc].
  split.
  - apply count_NoDup. intros v.
    specialize (Hc v). specialize (HA v). specialize (HB v). lia.
  - apply compareLists_unique; [apply sort_sorted|]. intros v.
    rewrite (proj1 (count_perm _ _) (sort_perm A) v).
    specialize (Hc v). specialize (HA v). specialize (HB v). lia.
Qed.

Lemma compareLists_NoDup_witness :
  NoDup (compareLists [1; 2; 3; 10] [2; 5; 10; 11]) ∧
  compareLists (compareLists [1; 2; 3; 10] [2; 5; 10; 11]) [2; 5; 10; 11]
  = sort [1; 2; 3; 10].
Proof.
  apply (compareLists_NoDup [1; 2; 3; 10] [2; 5; 10; 11]);
    apply NoDup_ListNoDup; repeat (constructor; [simpl; lia|]); constructor.
Defined.

End CompareListsMore.

(** ** The tests as sequences of calls *)

Section ScenarioFacts.
Import Driver Scenarios.

Lemma calls_app {W} (exec : call → W → W) a b w :
  calls exec (a ++ b) w = calls exec b (calls exec a w).
Proof. apply foldl_app. Qed.

Lemma iteration_calls {W} (exec : call → W → W) events start s :
  iteration exec events start s
  = Sim (Time s + 1) (calls exec (events start (Time s) ++ tick_calls) (world s)).
Proof. unfold iteration. by rewrite calls_app. Qed.

Lemma loop_calls {W} (exec : call → W → W) events n w :
  world (loop exec n events 0 (Sim 0 w))
  = calls exec (flat_map (λ i, events 0 (Z.of_nat i) ++ tick_calls) (seq 0 n)) w.
Proof.
  induction n as [|n IH]; [done|].
  rewrite loop_succ, iteration_calls. simpl world.
  rewrite IH, loop_Time. simpl Time.
  rewrite Z.add_0_l, seq_S, flat_map_app. simpl flat_map.
  by rewrite app_nil_r, !calls_app.
Qed.

Lemma sim_eta {W} (s : @sim W) : s = Sim (Time s) (world s).
Proof. by destruct s. Qed.

Lemma start_test_calls {W} (exec : call → W → W) setup t w :
  start_test exec setup (Sim t w) = Sim t (calls exec ((reset <$> Devices) ++ setup) w).
Proof. unfold start_test. by rewrite calls_app. Qed.

Lemma run_script_calls {W} (exec : call → W → W) sc start w :
  relative (events sc) →
  run_script exec sc (Sim start w) = Sim (start + 1000) (calls exec (script_trace sc) w).
Proof.
  intros Hrel.
  change (run_script exec sc (Sim start w))
    with (loop exec 1000 (events sc) start (start_test exec (setup sc) (Sim start w))).
  rewrite (sim_eta (loop _ _ _ _ _)), loop_Time.
  rewrite (loop_start_test exec _ _ Hrel), !start_test_calls, loop_calls.
  unfold script_trace. rewrite !calls_app. f_equal.
Qed.

Lemma run_scripts_cons {W} (exec : call → W → W) sc scs s :
  run_scripts exec (sc :: scs) s = run_scripts exec scs (run_script exec sc s).
Proof. unfold run_scripts. cbn [foldl]. reflexivity. Qed.

Lemma run_scripts_calls {W} (exec : call → W → W) scs :
  Forall (λ sc, relative (events sc)) scs → ∀ start w,
  run_scripts exec scs (Sim start w)
  = Sim (start + 1000 * Z.of_nat (length scs))
        (calls exec (flat_map script_trace scs) w).
Proof.
  induction 1 as [|sc scs Hrel _ IH]; intros start w.
  { simpl. f_equal. lia. }
  rewrite run_scripts_cons, run_script_calls, IH by done.
  cbn [flat_map length]. rewrite calls_app. f_equal. lia.
Qed.

Lemma run_scripts_world {W} (exec : call → W → W) scs :
  Forall (λ sc, relative (events sc)) scs → ∀ start w,
  world (run_scripts exec scs (Sim start w)) = calls exec (flat_map script_trace scs) w.
Proof. intros Hrel start w. by rewrite run_scripts_calls. Qed.

Ltac relative_schedule :=
  intros start Time;
  repeat (apply app_relative; [apply at_time_relative|]);
  apply at_time_relative.

Lemma scripts_relative k u e : Forall (λ sc, relative (events sc)) (scripts k u e).
Proof. repeat (constructor; [relative_schedule|]). constructor. Qed.

Lemma main_scripts_relative k u e :
  Forall (λ sc, relative (events sc)) (main_scripts k u e).
Proof. repeat (constructor; [relative_schedule|]). constructor. Qed.

(** X8: tests whose schedules look at [SimLog::Time - start] only, run one
    after the other from any time and any state of the devices: each
    takes 1000 ticks, and what happens to the devices is the calls of the
    first test at time 0, then those of the second at time 0, and so on.
    The calls depend neither on the time the tests start nor on what the
    devices do. *)
Theorem run_scripts_trace {W} (exec : call → W → W) (scs : list script)
    (start : Z) (w : W) (trace : list call) :
  Forall (λ sc, relative (events sc)) scs →
  run_scripts exec scs (Sim start w)
  = Sim (start + 1000 * Z.of_nat (length scs))
        (calls exec (flat_map script_trace scs) w) ∧
  world (run_scripts record_call scs (Sim start trace))
  = trace ++ flat_map script_trace scs.
Proof.
  intros Hrel. split; [by apply run_scripts_calls|].
  rewrite run_scripts_world by done. apply calls_record.
Qed.

(** X9: an action under [if (SimLog::Time == start + offset)] runs once in
    the [n] iterations of a loop when [0 ≤ offset < n], and never
    otherwise. *)
Theorem at_time_once (n : nat) (offset : Z) (body : list call) :
  flat_map (λ i, at_time (Z.of_nat i) 0 offset body) (seq 0 n)
  = if decide (0 ≤ offset < Z.of_nat n) then body else [].
Proof.
  induction n as [|n IH]; [by case_decide; [lia|]|].
  rewrite seq_S, flat_map_app, IH. simpl. rewrite app_nil_r.
  unfold at_time. repeat case_decide; try lia; try done.
  by rewrite app_nil_r.
Qed.

(** X10: every call of every test names a device that [main] has built, Macs
    that the device has, and, for a test frame, an end station. *)
Theorem scripts_in_range (defaultActorKey unusedAggregatorKey CVlanEthertype : Z) :
  Forall (λ sc, forallb in_range (script_trace sc) = true)
         (scripts defaultActorKey unusedAggregatorKey CVlanEthertype).
Proof. repeat (constructor; [vm_compute; reflexivity|]). constructor. Qed.

End ScenarioFacts.

Lemma run_scripts_trace_witness :
  Driver.world
    (Scenarios.run_scripts Driver.record_call
       [Scenarios.lagLoopbackTest; Scenarios.drniPartnerTest] (Driver.Sim 7000 []))
  = [] ++ flat_map Scenarios.script_trace
            [Scenarios.lagLoopbackTest; Scenarios.drniPartnerTest].
Proof.
  apply (run_scripts_trace Driver.record_call
           [Scenarios.lagLoopbackTest; Scenarios.drniPartnerTest] 7000 [] []).
  repeat (constructor;
    [intros start Time;
     repeat (apply app_relative; [apply at_time_relative|]);
     apply at_time_relative|]).
  constructor.
Defined.

(** ** The keys the tests leave behind *)

Section AdminKeysFacts.
Import Driver Scenarios.

(** Two keys are the same [unsigned short] exactly when their distances
    from a third are. *)
Lemma ushort_distance k a b :
  Drni.ushort (a - k) = Drni.ushort (b - k) ↔ Drni.ushort a = Drni.ushort b.
Proof.
  unfold Drni.ushort. split; intros H.
  - replace a with ((a - k) + k) by lia. replace b with ((b - k) + k) by lia.
    by rewrite (Z.add_mod (a - k)), (Z.add_mod (b - k)), H by lia.
  - by rewrite (Zminus_mod a), (Zminus_mod b), H.
Qed.

(** X11: when the tests of [main] up to [waitToRestoreTest] have run, the last
    key written to every Aggregator of Bridge 0 is [defaultActorKey], and
    so is the last key written to its AggPorts 1, 3 and 5; AggPorts 6 and
    7 keep [defaultActorKey + 0x100]: [waitToRestoreTest] sets it at +1
    and its "restore all default values" at +990 writes the keys of the
    Aggregators only.  The keys are written as [unsigned short], that
    is modulo 2^16, and the key left on AggPorts 6 and 7 is not the one
    left on the Aggregators, whatever [defaultActorKey] is.  No other
    key is written. *)
Theorem main_keys_written (defaultActorKey unusedAggregatorKey CVlanEthertype start : Z) :
  AdminKeys.after_main defaultActorKey unusedAggregatorKey CVlanEthertype start
  = AdminKeys.Written
      {[ (0, 1)%nat := Drni.ushort defaultActorKey;
         (0, 3)%nat := Drni.ushort defaultActorKey;
         (0, 5)%nat := Drni.ushort defaultActorKey;
         (0, 6)%nat := Drni.ushort (defaultActorKey + 0x100);
         (0, 7)%nat := Drni.ushort (defaultActorKey + 0x100) ]}
      (list_to_map ((λ agg, ((0%nat, agg), Drni.ushort defaultActorKey)) <$> seq 0 brgMacCnt))
  ∧ Drni.ushort (defaultActorKey + 0x100) ≠ Drni.ushort defaultActorKey.
Proof.
  split.
  - unfold AdminKeys.after_main.
    rewrite (run_scripts_world AdminKeys.exec _ (main_scripts_relative _ _ _)).
    unfold AdminKeys.exec. generalize Drni.ushort. intros conv. vm_compute. reflexivity.
  - intros H. apply (ushort_distance defaultActorKey) in H.
    by rewrite Z.add_simpl_l, Z.sub_diag in H.
Qed.

End AdminKeysFacts.

(** ** The keys of the Distributed Relay Aggregators *)

Section AggKeyFacts.
Import Drni.

Lemma land_pow2_small (x y n : Z) :
  0 ≤ n → 0 ≤ y < 2 ^ n → Z.land (x * 2 ^ n) y = 0.
Proof.
  intros Hn Hy. apply Z.bits_inj'. intros i Hi.
  rewrite Z.land_spec, Z.bits_0.
  destruct (decide (i < n)) as [Hlt|Hge].
  - by rewrite Z.mul_pow2_bits_low by lia.
  - rewrite <- (Z.mod_small y (2 ^ n)) by lia.
    rewrite Z.mod_pow2_bits_high by lia. apply andb_false_r.
Qed.

Lemma lor_pow2_small (x y n : Z) :
  0 ≤ n → 0 ≤ y < 2 ^ n → Z.lor (x * 2 ^ n) y = x * 2 ^ n + y.
Proof.
  intros Hn Hy. rewrite <- Z.add_lor_land, land_pow2_small by done. lia.
Qed.

Lemma land_f000 (k : Z) : Z.land k 0xf000 = ((k / 2 ^ 12) mod 2 ^ 4) * 2 ^ 12.
Proof.
  apply Z.bits_inj'. intros i Hi.
  rewrite Z.land_spec.
  change 0xf000 with (Z.shiftl (Z.ones 4) 12).
  rewrite Z.shiftl_spec by done.
  destruct (decide (i < 12)) as [Hlt|Hge].
  - rewrite Z.mul_pow2_bits_low by lia.
    rewrite (Z.testbit_neg_r _ (i - 12)) by lia. apply andb_false_r.
  - rewrite Z.mul_pow2_bits by lia.
    rewrite Z.testbit_ones by lia.
    destruct (decide (i - 12 < 4)) as [H4|H4].
    + rewrite Z.mod_pow2_bits_low by lia.
      rewrite Z.div_pow2_bits by lia.
      replace (i - 12 + 12) with i by lia.
      replace (0 <=? i - 12) with true by (symmetry; apply Z.leb_le; lia).
      replace (i - 12 <? 4) with true by (symmetry; apply Z.ltb_lt; lia).
      apply andb_true_r.
    + rewrite Z.mod_pow2_bits_high by lia.
      replace (i - 12 <? 4) with false by (symmetry; apply Z.ltb_ge; lia).
      by rewrite andb_false_r, andb_false_r.
Qed.

Lemma aggKey_sum (k : Z) (dev idx : nat) :
  (dev < 16)%nat → (idx < 255)%nat →
  aggKey k dev idx = Z.land k 0xf000 + 256 * Z.of_nat dev + Z.of_nat idx + 1.
Proof.
  intros Hdev Hidx. unfold aggKey, ushort.
  rewrite land_f000.
  pose proof (Z.mod_pos_bound (k / 2 ^ 12) (2 ^ 4) ltac:(lia)) as Hq.
  set (q := (k / 2 ^ 12) mod 2 ^ 4) in *.
  rewrite (lor_pow2_small q) by lia.
  replace (q * 2 ^ 12 + Z.of_nat dev * 256) with ((16 * q + Z.of_nat dev) * 2 ^ 8) by lia.
  rewrite lor_pow2_small by lia.
  rewrite Z.mod_small by lia. lia.
Qed.

(** X12: the key [main] gives the Aggregator of a Distributed Relay is the
    top four bits of [defaultActorKey], then the device number, then
    [drniMacIndex + 1].  It is different for different devices and
    indices ("unique between systems"); it is the key of the other
    Aggregators of the system, [defaultActorKey], exactly when the low
    twelve bits of [defaultActorKey] are [256 * dev + drniMacIndex + 1]. *)
Theorem aggKey_unique (defaultActorKey : Z) (dev idx : nat) :
  (dev < 16)%nat → (idx < 255)%nat →
  aggKey defaultActorKey dev idx
  = Z.land defaultActorKey 0xf000 + 256 * Z.of_nat dev + Z.of_nat idx + 1 ∧
  (∀ dev' idx', (dev' < 16)%nat → (idx' < 255)%nat →
     aggKey defaultActorKey dev' idx' = aggKey defaultActorKey dev idx →
     dev' = dev ∧ idx' = idx) ∧
  (0 ≤ defaultActorKey < 2 ^ 16 →
     (aggKey defaultActorKey dev idx = defaultActorKey
      ↔ defaultActorKey mod 2 ^ 12 = 256 * Z.of_nat dev + Z.of_nat idx + 1)).
Proof.
  intros Hdev Hidx. split_and!.
  - by apply aggKey_sum.
  - intros dev' idx' Hdev' Hidx'. rewrite !aggKey_sum by done. lia.
  - intros Hk. rewrite aggKey_sum by done. rewrite land_f000.
    rewrite (Z.mod_small (defaultActorKey / 2 ^ 12)).
    2:{ split; [apply Z.div_pos; lia|]. apply Z.div_lt_upper_bound; lia. }
    pose proof (Z.div_mod defaultActorKey (2 ^ 12) ltac:(lia)). lia.
Qed.

End AggKeyFacts.

Lemma aggKey_unique_witness :
  Drni.aggKey 0x0005 0 4 = 0x0005 ∧ Drni.aggKey 0x1234 1 4 = 0x1105.
Proof.
  pose proof (aggKey_unique 0x0005 0 4 ltac:(lia) ltac:(lia)) as (_ & _ & H5).
  pose proof (aggKey_unique 0x1234 1 4 ltac:(lia) ltac:(lia)) as (E & _ & _).
  split.
  - apply H5; [lia|reflexivity].
  - rewrite E. reflexivity.
Defined.

(** ** The loop that creates the Distributed Relays *)

Section DrniSetupFacts.
Import Drni DrniSetup.
Context (defaultActorKey defaultDrniKey : Z) {A : Type}.

Lemma drniMacIndex_small (n : nat) :
  Z.of_nat n < 2 ^ 31 → int (size_t (Z.of_nat n - size_t (2 + 2))) = Z.of_nat n - 4.
Proof.
  intros Hn. unfold int, size_t.
  change (2 ^ 64) with 18446744073709551616.
  change (2 ^ 32) with 4294967296. change (2 ^ 31) with 2147483648 in *.
  change ((2 + 2) mod 18446744073709551616) with 4.
  Z.div_mod_to_equations. lia.
Qed.

Lemma last_four {X} (l : list X) :
  (4 ≤ length l)%nat →
  ∃ pre x0 x1 x2 x3, l = pre ++ [x0; x1; x2; x3] ∧ length pre = (length l - 4)%nat.
Proof.
  intros Hl. exists (take (length l - 4) l).
  pose proof (take_drop (length l - 4) l) as E.
  pose proof (length_drop l (length l - 4)) as Hd.
  destruct (drop (length l - 4) l) as [|x0 [|x1 [|x2 [|x3 [|x4 r]]]]]; simpl in Hd; try lia.
  exists x0, x1, x2, x3. split; [done|]. rewrite length_take. lia.
Qed.

Lemma vector_set_Some {X} (v : list X) (i : nat) (x : X) :
  (i < length v)%nat → vector_set v (Z.of_nat i) x = Some (<[i := x]> v).
Proof.
  intros Hi. unfold vector_set. rewrite decide_True by lia. by rewrite Nat2Z.id.
Qed.

Lemma vector_set_None {X} (v : list X) (i : Z) (x : X) :
  ¬ (0 ≤ i < Z.of_nat (length v)) → vector_set v i x = None.
Proof. intros Hi. unfold vector_set. by rewrite decide_False. Qed.

Lemma vector_at_nat {X} (v : list X) (i : nat) : vector_at v (Z.of_nat i) = v !! i.
Proof. unfold vector_at. rewrite decide_True by lia. by rewrite Nat2Z.id. Qed.

Lemma configure_bridge_cases (adminDrniId : Z) (dev : nat) (b : device A)
    (firstLinkNum : Z) :
  Z.of_nat (length (bPorts b)) < 2 ^ 31 →
  let n := length (bPorts b) in
  match configure_bridge defaultActorKey defaultDrniKey adminDrniId (Z.of_nat dev)
          b firstLinkNum with
  | Some (b', firstLinkNum') =>
      (4 ≤ n)%nat ∧
      (n - 4 < length (aAggActorAdminKey (lag b)))%nat ∧
      (n - 4 < length (pDistRelays (lag b)))%nat ∧
      let key := if decide (addr adminDrniId ≠ 0) then defaultDrniKey
                 else aggKey defaultActorKey dev (n - 4) in
      let pDR := mkDistributedRelay adminDrniId key in
      bPorts b' = take (n - 4) (bPorts b) ++ [relay pDR; nullptr; nullptr; nullptr] ∧
      aAggActorAdminKey (lag b')
      = <[(n - 4)%nat := aggKey defaultActorKey dev (n - 4)]> (aAggActorAdminKey (lag b)) ∧
      pDistRelays (lag b') = <[(n - 4)%nat := Some pDR]> (pDistRelays (lag b)) ∧
      configured b'
      = configured b
        ++ [ConfigDistRelay (Z.of_nat (n - 4)) 2 2 adminDrniId key firstLinkNum] ∧
      firstLinkNum' = ushort (firstLinkNum + 2)
  | None =>
      (n < 4)%nat ∨
      (length (aAggActorAdminKey (lag b)) ≤ n - 4)%nat ∨
      (length (pDistRelays (lag b)) ≤ n - 4)%nat
  end.
Proof.
  intros Hn. cbv zeta. destruct b as [ports [keys relays] cfgs].
  unfold configure_bridge. cbn [bPorts lag configured aAggActorAdminKey pDistRelays].
  rewrite drniMacIndex_small by done.
  remember (length ports) as n eqn:En.
  destruct (decide (4 ≤ n)%nat) as [H4|H4]; last first.
  { rewrite (vector_set_None keys) by lia. left. lia. }
  replace (Z.of_nat n - 4) with (Z.of_nat (n - 4)) by lia.
  remember (n - 4)%nat as i eqn:Ei.
  destruct (decide (i < length keys)%nat) as [Hk|Hk]; last first.
  { rewrite (vector_set_None keys) by lia. right. left. lia. }
  rewrite (vector_set_Some keys) by done. cbn [mbind option_bind].
  rewrite (decide_True (P := 0 ≤ _)) by lia.
  rewrite vector_at_nat, list_lookup_insert.
  rewrite (decide_True (P := i = i ∧ _)) by (split; [done|lia]).
  fold (aggKey defaultActorKey dev i).
  assert ((if decide (addr adminDrniId ≠ 0) then Some defaultDrniKey
           else Some (aggKey defaultActorKey dev i))
          = Some (if decide (addr adminDrniId ≠ 0) then defaultDrniKey
                  else aggKey defaultActorKey dev i)) as -> by (by case_decide).
  cbn [mbind option_bind].
  destruct (decide (i < length relays)%nat) as [Hr|Hr]; last first.
  { rewrite (vector_set_None relays) by lia. right. right. lia. }
  rewrite (vector_set_Some relays) by done. cbn [mbind option_bind].
  destruct (last_four ports ltac:(lia)) as (pre & x0 & x1 & x2 & x3 & -> & Hpre).
  assert (i = length pre) as Hi by lia. clear Ei. subst i.
  rewrite vector_set_Some by (rewrite length_app; simpl; lia).
  cbn [mbind option_bind].
  assert (seqZ (Z.of_nat (length pre) + 1) (2 + 2 - 1)
          = [Z.of_nat (length pre + 1); Z.of_nat (length pre + 2);
             Z.of_nat (length pre + 3)]) as ->.
  { unfold seqZ. simpl. repeat (f_equal; try lia). }
  rewrite insert_app_r_alt, Nat.sub_diag by lia.
  cbn [foldl mbind option_bind].
  rewrite vector_set_Some by (rewrite length_app; simpl; lia).
  rewrite insert_app_r. cbn [mbind option_bind].
  rewrite vector_set_Some by (rewrite length_app; simpl; lia).
  rewrite insert_app_r. cbn [mbind option_bind].
  rewrite vector_set_Some by (rewrite length_app; simpl; lia).
  rewrite insert_app_r. cbn [mbind option_bind].
  cbn [bPorts lag configured aAggActorAdminKey pDistRelays].
  rewrite take_app_length.
  split_and!; done.
Qed.

(** X13: one pass of the loop on a bridge with [n] ports goes through without
    an access outside a vector exactly when [n ≥ 4] and the LinkAgg has
    an Aggregator and a Distributed Relay slot [n - 4].  With fewer than
    four ports the index is negative and the failure is the access
    [pAggregators[drniMacIndex]] made before the test
    [drniMacIndex >= 0]: the test never fails.  When the pass goes
    through, the last four bridge ports are the new Distributed Relay and
    three null pointers, the other ports are untouched, Aggregator
    [n - 4] has the new key, [configDistRelay] is called once and
    [firstLinkNum] goes up by two. *)
Theorem configure_bridge_spec (adminDrniId : Z) (dev : nat) (b : device A)
    (firstLinkNum : Z) :
  Z.of_nat (length (bPorts b)) < 2 ^ 31 →
  let n := length (bPorts b) in
  let result := configure_bridge defaultActorKey defaultDrniKey adminDrniId
                  (Z.of_nat dev) b firstLinkNum in
  (is_Some result ↔
     (4 ≤ n)%nat ∧
     (n - 4 < length (aAggActorAdminKey (lag b)))%nat ∧
     (n - 4 < length (pDistRelays (lag b)))%nat) ∧
  ∀ b' firstLinkNum', result = Some (b', firstLinkNum') →
    let key := if decide (addr adminDrniId ≠ 0) then defaultDrniKey
               else aggKey defaultActorKey dev (n - 4) in
    let pDR := mkDistributedRelay adminDrniId key in
    bPorts b' = take (n - 4) (bPorts b) ++ [relay pDR; nullptr; nullptr; nullptr] ∧
    aAggActorAdminKey (lag b')
    = <[(n - 4)%nat := aggKey defaultActorKey dev (n - 4)]> (aAggActorAdminKey (lag b)) ∧
    pDistRelays (lag b') = <[(n - 4)%nat := Some pDR]> (pDistRelays (lag b)) ∧
    configured b'
    = configured b
      ++ [ConfigDistRelay (Z.of_nat (n - 4)) 2 2 adminDrniId key firstLinkNum] ∧
    firstLinkNum' = ushort (firstLinkNum + 2).
Proof.
  intros Hn. cbv zeta.
  pose proof (configure_bridge_cases adminDrniId dev b firstLinkNum Hn) as H.
  cbv zeta in H.
  destruct (configure_bridge _ _ _ _ _ _) as [[b1 f1]|].
  - split; [split; [intros _; tauto|by eexists]|].
    intros b' f' [= <- <-]. tauto.
  - split; [|done]. split; [by intros [? ?]|]. lia.
Qed.

(** X14: the loop over bridges 0 and 1: when it goes through, the two
    systems are configured with first link numbers 1 and 3 and
    [firstLinkNum] ends at 5; each has its Distributed Relay in slot
    [n - 4] of [pDistRelays]; and with the administrative portal address
    0 the two relays hold different keys. *)
Theorem main_bridges_spec (adminDrniId : Z) (d0 d1 : device A)
    (rest : list (device A)) :
  Z.of_nat (length (bPorts d0)) < 2 ^ 31 →
  Z.of_nat (length (bPorts d1)) < 2 ^ 31 →
  let n0 := length (bPorts d0) in
  let n1 := length (bPorts d1) in
  let key dev n := if decide (addr adminDrniId ≠ 0) then defaultDrniKey
                   else aggKey defaultActorKey dev (n - 4) in
  match main_bridges defaultActorKey defaultDrniKey adminDrniId (d0 :: d1 :: rest) with
  | Some (Devices, firstLinkNum) =>
      firstLinkNum = 5 ∧
      ∃ d0' d1',
        Devices = d0' :: d1' :: rest ∧
        configured d0'
        = configured d0
          ++ [ConfigDistRelay (Z.of_nat (n0 - 4)) 2 2 adminDrniId (key 0%nat n0) 1] ∧
        configured d1'
        = configured d1
          ++ [ConfigDistRelay (Z.of_nat (n1 - 4)) 2 2 adminDrniId (key 1%nat n1) 3] ∧
        pDistRelays (lag d0') !! (n0 - 4)%nat
        = Some (Some (mkDistributedRelay adminDrniId (key 0%nat n0))) ∧
        pDistRelays (lag d1') !! (n1 - 4)%nat
        = Some (Some (mkDistributedRelay adminDrniId (key 1%nat n1))) ∧
        (addr adminDrniId = 0 → (n0 < 259)%nat → (n1 < 259)%nat →
         key 0%nat n0 ≠ key 1%nat n1)
  | None =>
      (n0 < 4)%nat ∨ (n1 < 4)%nat ∨
      (length (aAggActorAdminKey (lag d0)) ≤ n0 - 4)%nat ∨
      (length (pDistRelays (lag d0)) ≤ n0 - 4)%nat ∨
      (length (aAggActorAdminKey (lag d1)) ≤ n1 - 4)%nat ∨
      (length (pDistRelays (lag d1)) ≤ n1 - 4)%nat
  end.
Proof.
  intros Hn0 Hn1. cbv zeta.
  pose proof (configure_bridge_cases adminDrniId 0 d0 1 Hn0) as H0.
  unfold main_bridges. cbn [seq foldl mbind option_bind lookup list_lookup].
  change (Z.of_nat 0) with 0 in *.
  cbv zeta in H0.
  destruct (configure_bridge _ _ _ 0 d0 1) as [[d0' f0]|]; last first.
  { cbn [mbind option_bind]. lia. }
  destruct H0 as (H4 & Hk & Hr & _ & _ & Hrel & Hcfg & ->).
  cbn [mbind option_bind insert list_insert lookup list_lookup].
  change (ushort (1 + 2)) with 3.
  pose proof (configure_bridge_cases adminDrniId 1 d1 3 Hn1) as H1.
  cbv zeta in H1. change (Z.of_nat 1) with 1 in *.
  destruct (configure_bridge _ _ _ 1 d1 3) as [[d1' f1]|]; last first.
  { cbn [mbind option_bind]. lia. }
  destruct H1 as (H4' & Hk' & Hr' & _ & _ & Hrel' & Hcfg' & ->).
  cbn [mbind option_bind insert list_insert].
  split; [done|]. exists d0', d1'.
  split_and!; [done|done|done|..].
  - rewrite Hrel, list_lookup_insert. by rewrite decide_True by (split; [done|lia]).
  - rewrite Hrel', list_lookup_insert. by rewrite decide_True by (split; [done|lia]).
  - intros Haddr Hs0 Hs1. rewrite !decide_False by (intros ?; done).
    intros E.
    pose proof (aggKey_bit8 defaultActorKey 0
                  (length (bPorts d0) - 4) ltac:(lia) ltac:(lia)) as B0.
    pose proof (aggKey_bit8 defaultActorKey 1
                  (length (bPorts d1) - 4) ltac:(lia) ltac:(lia)) as B1.
    rewrite E, B1 in B0. discriminate B0.
Qed.

End DrniSetupFacts.

(** The two passes on the bridges [main] builds: eight ports each and a
    LinkAgg shim with eight Aggregators. *)
Lemma configure_bridge_spec_witness :
  is_Some (DrniSetup.configure_bridge 0x1234 0x5678 0 (Z.of_nat 1)
             (DrniSetup.Device (replicate 8 (DrniSetup.attached ()))
                               (Drni.newLinkAgg 0x1234 8) []) 3).
Proof.
  apply (configure_bridge_spec 0x1234 0x5678 0 1
           (DrniSetup.Device (replicate 8 (DrniSetup.attached ()))
                             (Drni.newLinkAgg 0x1234 8) []) 3).
  - simpl. lia.
  - simpl. lia.
Defined.

Lemma main_bridges_spec_witness :
  match DrniSetup.main_bridges 0x1234 0x5678 0
          [DrniSetup.Device (replicate 8 (DrniSetup.attached ()))
                            (Drni.newLinkAgg 0x1234 8) [];
           DrniSetup.Device (replicate 8 (DrniSetup.attached ()))
                            (Drni.newLinkAgg 0x1234 8) []] with
  | Some (_, firstLinkNum) => firstLinkNum = 5
  | None => False
  end.
Proof.
  pose proof (main_bridges_spec 0x1234 0x5678 0
                (DrniSetup.Device (replicate 8 (DrniSetup.attached ()))
                                  (Drni.newLinkAgg 0x1234 8) [])
                (DrniSetup.Device (replicate 8 (DrniSetup.attached ()))
                                  (Drni.newLinkAgg 0x1234 8) [])
                [] ltac:(simpl; lia) ltac:(simpl; lia)) as H.
  cbv zeta in H.
  destruct (DrniSetup.main_bridges _ _ _ _) as [[ds f]|] eqn:E.
  - apply H.
  - vm_compute in E. discriminate E.
Defined.

(** ** The gateway vectors *)

Section GatewayFacts.
Import Gateway.

(** Writing [f k] at index [k] when the indices below [k] are written. *)
Lemma insert_next {X} (f : nat → X) (init : list X) (k : nat) :
  (k < length init)%nat →
  <[k := f k]> ((f <$> seq 0 k) ++ drop k init) = (f <$> seq 0 (S k)) ++ drop (S k) init.
Proof.
  intros Hk.
  rewrite insert_app_r_alt by (rewrite length_fmap, length_seq; lia).
  rewrite length_fmap, length_seq, Nat.sub_diag.
  destruct (lookup_lt_is_Some_2 init k Hk) as [x Hx].
  rewrite (drop_S _ _ _ Hx). cbn [insert list_insert].
  by rewrite seq_S, fmap_app, <- app_assoc.
Qed.

Lemma foldl_seq_S {X} (g : X → nat → X) (x : X) (k : nat) :
  foldl g x (seq 0 (S k)) = g (foldl g x (seq 0 k)) k.
Proof. by rewrite seq_S, foldl_app. Qed.

Lemma fill_upto (v : vectors) (k : nat) :
  (k ≤ length (tempGwEn0 v))%nat → (k ≤ length (tempGwEn1 v))%nat →
  (k ≤ length (tempGwPref0 v))%nat → (k ≤ length (tempGwPref1 v))%nat →
  foldl (λ v cid,
           let c := Z.of_nat cid in
           let tempGwPref0 := <[cid := negb (Z.land c 0x1 =? 0)]> (tempGwPref0 v) in
           let tempGwPref1 := <[cid := negb (Z.land c 0x2 =? 0)]> (tempGwPref1 v) in
           let tempGwEn0 := <[cid := Z.land c 0x4 =? 0]> (tempGwEn0 v) in
           let tempGwEn1 := <[cid := Z.land c 0x8 =? 0]> (tempGwEn1 v) in
           Vectors tempGwEn0 tempGwEn1 tempGwPref0 tempGwPref1)
        v (seq 0 k)
  = Vectors (((λ cid, Z.land (Z.of_nat cid) 0x4 =? 0) <$> seq 0 k)
             ++ drop k (tempGwEn0 v))
            (((λ cid, Z.land (Z.of_nat cid) 0x8 =? 0) <$> seq 0 k)
             ++ drop k (tempGwEn1 v))
            (((λ cid, negb (Z.land (Z.of_nat cid) 0x1 =? 0)) <$> seq 0 k)
             ++ drop k (tempGwPref0 v))
            (((λ cid, negb (Z.land (Z.of_nat cid) 0x2 =? 0)) <$> seq 0 k)
             ++ drop k (tempGwPref1 v)).
Proof.
  induction k as [|k IH]; intros H0 H1 H2 H3.
  { destruct v. by rewrite !drop_0. }
  rewrite foldl_seq_S, IH by lia. cbv zeta.
  cbn [tempGwEn0 tempGwEn1 tempGwPref0 tempGwPref1].
  by rewrite (insert_next (λ cid, Z.land (Z.of_nat cid) 0x4 =? 0)),
             (insert_next (λ cid, Z.land (Z.of_nat cid) 0x8 =? 0)),
             (insert_next (λ cid, negb (Z.land (Z.of_nat cid) 0x1 =? 0))),
             (insert_next (λ cid, negb (Z.land (Z.of_nat cid) 0x2 =? 0))) by lia.
Qed.

Lemma fill_declared :
  fill declared
  = Vectors ((λ cid, Z.land (Z.of_nat cid) 0x4 =? 0) <$> seq 0 4096)
            ((λ cid, Z.land (Z.of_nat cid) 0x8 =? 0) <$> seq 0 4096)
            ((λ cid, negb (Z.land (Z.of_nat cid) 0x1 =? 0)) <$> seq 0 4096)
            ((λ cid, negb (Z.land (Z.of_nat cid) 0x2 =? 0)) <$> seq 0 4096).
Proof.
  unfold fill.
  rewrite fill_upto
    by (unfold declared, bitset_new;
        cbn [tempGwEn0 tempGwEn1 tempGwPref0 tempGwPref1];
        rewrite length_replicate; apply Nat.le_refl).
  unfold declared, bitset_new. cbn [tempGwEn0 tempGwEn1 tempGwPref0 tempGwPref1].
  rewrite !drop_ge by (rewrite length_replicate; apply Nat.le_refl).
  by rewrite !app_nil_r.
Qed.

Lemma land_pow2_testbit (c i : Z) :
  0 ≤ i → (Z.land c (2 ^ i) =? 0) = negb (Z.testbit c i).
Proof.
  intros Hi. destruct (Z.testbit c i) eqn:Hb; simpl.
  - apply Z.eqb_neq. intros E.
    assert (Z.testbit (Z.land c (2 ^ i)) i = true) as Ht.
    { by rewrite Z.land_spec, Hb, Z.pow2_bits_true. }
    by rewrite E, Z.bits_0 in Ht.
  - apply Z.eqb_eq. apply Z.bits_inj'. intros j Hj.
    rewrite Z.land_spec, Z.bits_0.
    destruct (decide (i = j)) as [<-|Hne].
    + by rewrite Hb.
    + rewrite Z.pow2_bits_false by done. apply andb_false_r.
Qed.

Lemma fill_bits (cid : nat) :
  (cid < 4096)%nat → bits (fill declared) cid = Some (cid_bits cid).
Proof.
  intros Hcid. rewrite fill_declared. unfold bits, cid_bits.
  cbn [tempGwEn0 tempGwEn1 tempGwPref0 tempGwPref1].
  assert (∀ f : nat → bool, (f <$> seq 0 4096) !! cid = Some (f cid)) as Hl.
  { intros f. by rewrite list_lookup_fmap, lookup_seq_lt. }
  do 4 (rewrite Hl; cbn [mbind option_bind]).
  rewrite (land_pow2_testbit _ 2), (land_pow2_testbit _ 3),
          (land_pow2_testbit _ 0), (land_pow2_testbit _ 1) by done.
  by rewrite !negb_involutive.
Qed.

Lemma fill_bits_None (cid : nat) : (4096 ≤ cid)%nat → bits (fill declared) cid = None.
Proof.
  intros Hcid. rewrite fill_declared. unfold bits. cbn [tempGwEn0].
  assert (∀ f : nat → bool, (f <$> seq 0 4096) !! cid = None) as Hl.
  { intros f. by rewrite list_lookup_fmap, lookup_seq_ge. }
  by rewrite Hl.
Qed.

Lemma cid_bits_mod (cid : nat) : cid_bits (cid mod 16) = cid_bits cid.
Proof.
  unfold cid_bits. rewrite Nat2Z.inj_mod. change (Z.of_nat 16) with (2 ^ 4).
  by rewrite !Z.mod_pow2_bits_low by lia.
Qed.

Lemma cid_bits_add (j i : nat) : cid_bits (16 * j + i) = cid_bits i.
Proof.
  rewrite <- (cid_bits_mod (16 * j + i)), <- (cid_bits_mod i). f_equal.
  rewrite Nat.add_comm, Nat.mul_comm. apply Nat.Div0.mod_add.
Qed.

Lemma filter_length_ext {X} (P Q : X → Prop) `{∀ x, Decision (P x)}
    `{∀ x, Decision (Q x)} (l : list X) :
  (∀ x, x ∈ l → P x ↔ Q x) → length (filter P l) = length (filter Q l).
Proof.
  induction l as [|x l IH]; intros HPQ; [done|].
  rewrite !filter_cons.
  pose proof (HPQ x ltac:(left)) as Hx.
  pose proof (IH (λ y Hy, HPQ y ltac:(by right))) as Hl.
  repeat case_decide; simpl; tauto || lia.
Qed.

Lemma filter_length_fmap {X Y} (f : X → Y) (P : Y → Prop) `{∀ y, Decision (P y)}
    (l : list X) :
  length (filter P (f <$> l)) = length (filter (λ x, P (f x)) l).
Proof.
  induction l as [|x l IH]; [done|].
  rewrite fmap_cons, !filter_cons. case_decide; simpl; by rewrite IH.
Qed.

(** Among the conversation IDs below [16 * m], each combination of bits
    is that of one ID in every block of sixteen. *)
Lemma cid_bits_count (c : bool * bool * bool * bool) (m : nat) :
  length (filter (λ cid, cid_bits cid = c) (seq 0 (16 * m))) = m.
Proof.
  induction m as [|m IH]; [done|].
  replace (16 * S m)%nat with (16 * m + 16)%nat by lia.
  rewrite seq_app, filter_app, length_app, IH, Nat.add_0_l.
  assert (seq (16 * m) 16 = Nat.add (16 * m) <$> seq 0 16) as ->.
  { rewrite fmap_add_seq. f_equal. lia. }
  rewrite filter_length_fmap.
  rewrite (filter_length_ext _ (λ cid, cid_bits cid = c))
    by (intros i _; by rewrite cid_bits_add).
  assert (length (filter (λ cid, cid_bits cid = c) (seq 0 16)) = 1%nat) as ->
    by (by destruct c as [[[[] []] []] []]; vm_compute).
  lia.
Qed.

(** X15: the loop gives each of the two systems a gateway enable vector and
    a gateway preference vector whose bit [cid] is read off bits 2, 3, 0
    and 1 of [cid]: the four bits of a conversation ID depend on
    [cid mod 16] only, and each of the sixteen combinations of enable and
    preference of the two systems is set up for exactly 256 of the 4096
    conversation IDs. *)
Theorem gateway_vectors_cover :
  let v := fill declared in
  (∀ cid, (cid < 4096)%nat →
     bits v cid
     = Some (negb (Z.testbit (Z.of_nat cid) 2), negb (Z.testbit (Z.of_nat cid) 3),
             Z.testbit (Z.of_nat cid) 0, Z.testbit (Z.of_nat cid) 1) ∧
     bits v cid = bits v (cid mod 16)) ∧
  (∀ cid, (4096 ≤ cid)%nat → bits v cid = None) ∧
  (∀ c : bool * bool * bool * bool,
     length (filter (λ cid, bits v cid = Some c) (seq 0 4096)) = 256%nat).
Proof.
  cbv zeta. split_and!.
  - intros cid Hcid. split; [by apply fill_bits|].
    pose proof (Nat.mod_upper_bound cid 16 ltac:(lia)) as Hm.
    by rewrite !fill_bits, cid_bits_mod by lia.
  - apply fill_bits_None.
  - intros c.
    rewrite (filter_length_ext _ (λ cid, cid_bits cid = c)).
    + exact (cid_bits_count c 256).
    + intros cid Hcid. apply elem_of_seq in Hcid.
      rewrite fill_bits by lia. split; congruence.
Qed.

End GatewayFacts.
